(** * Flow editor (rnd/autogpt_builder/src/components/Flow.tsx)

    A shallow embedding of the graph editor component: the node and edge
    collections with the per-node connection cache, the drag handlers that
    log position changes, the schema-driven input composer, the save
    routine with its identifier remap, copy/paste, the undo and redo
    closures of the commands, loading, running and execution events.

    React state is modelled by explicit state passing.  A handler reads the
    state captured by its closure and queues updates; the updates are
    applied in the order in which they were queued.

    What the code takes from outside this file is a parameter of the
    function that uses it: [deepEquals] of lib/utils, the service [api],
    [getTypeColor], the clock, and [inherited], the members that the
    prototypes of the JavaScript runtime provide. *)

From stdpp Require Import strings pretty list gmap.
From Stdlib Require Import Ascii ZArith Lia Reals Lra.
From Stdlib Require PrimFloat FloatOps SpecFloat.

Set Default Proof Using "Type".
Set Warnings "-register-all".

(** * JSON-like values

    An object is an association list in insertion order.  Objects built by
    the code never repeat a key; in a list that does, the later binding
    shadows the earlier one, as in a JavaScript object literal. *)

Inductive Value : Type :=
| VNull
| VBool (b : bool)
| VNum (n : Z)
| VStr (s : string)
| VArr (l : list Value)
| VObj (o : list (string * Value))
(* an object of the runtime that no JSON text denotes: a method of a
   prototype, a prototype itself; [name] tells them apart *)
| VBuiltin (name : string).

Abbreviation Obj := (list (string * Value)).

(** [o[key]] on own properties; [None] is JavaScript's [undefined]. *)
Fixpoint obj_get {A : Type} (key : string) (o : list (string * A)) : option A :=
  match o with
  | [] => None
  | (k, v) :: rest =>
      match obj_get key rest with
      | Some v' => Some v'
      | None => if decide (k = key) then Some v else None
      end
  end.

Definition obj_has {A : Type} (key : string) (o : list (string * A)) : bool :=
  bool_decide (is_Some (obj_get key o)).

(** [o[key] = v]: an existing key keeps its place, a new key goes last.
    (The order in which JavaScript lists keys that are array indices is
    not modelled; objects are read by key.) *)
Definition obj_set {A : Type} (key : string) (v : A) (o : list (string * A))
  : list (string * A) :=
  if obj_has key o
  then (λ kv, if decide (kv.1 = key) then (kv.1, v) else kv) <$> o
  else o ++ [(key, v)].

Fixpoint chars (s : string) : list string :=
  match s with
  | EmptyString => []
  | String c rest => String c EmptyString :: chars rest
  end.

(** The own enumerable properties of a value: those of an object, the
    indexed elements of an array, the indexed characters of a string, and
    none for a number, a boolean, [null] or an object of the runtime. *)
Definition own_entries (v : Value) : Obj :=
  match v with
  | VObj o => o
  | VArr l => imap (λ i e, (pretty i, e)) l
  | VStr s => imap (λ i c, (pretty i, VStr c)) (chars s)
  | VNull | VBool _ | VNum _ | VBuiltin _ => []
  end.

(** [length], the own property of strings and arrays that is not
    enumerable. *)
Definition own_length (v : Value) : option Value :=
  match v with
  | VStr s => Some (VNum (Z.of_nat (String.length s)))
  | VArr l => Some (VNum (Z.of_nat (length l)))
  | _ => None
  end.

(** [values[key]].  Reading a property of [null] throws a TypeError, which
    is the outer [None].  A key that is no own enumerable property is
    looked up further: [length] of a string or an array is its length, and
    every other key is a matter of the runtime, which seeks it in the
    prototypes of the value and, on one of its own objects, among the
    properties of that object.  What the runtime holds is not part of
    this component; [inherited values key] stands for what the lookup
    gives there, [None] for [undefined]. *)
Definition get_member (inherited : Value → string → option Value)
    (values : Value) (key : string) : option (option Value) :=
  match values with
  | VNull => None
  | _ =>
      Some
        match obj_get key (own_entries values) with
        | Some v => Some v
        | None =>
            match (if decide (key = "length") then own_length values else None) with
            | Some n => Some n
            | None => inherited values key
            end
        end
  end.

(** [inputData[key] = v] on the object literal [inputData].  The key
    [__proto__] is the accessor of [Object.prototype]: assigning to it
    changes the prototype of [inputData] or does nothing, and in neither
    case adds an own property.  What a changed prototype does to the
    assignments that follow is not modelled; see [proto_free]. *)
Definition assign (key : string) (v : Value) (inputData : Obj) : Obj :=
  if decide (key = "__proto__") then inputData else obj_set key v inputData.

(** [{ ...inputData, ...values }] *)
Definition spread (inputData : Obj) (values : Value) : Obj :=
  foldl (λ acc kv, obj_set kv.1 kv.2 acc) inputData (own_entries values).

(** * Object schemas *)

Inductive Schema : Type :=
  MkSchema {
    type : option string;
    properties : option (list (string * Schema));
    (* truthiness of the field *)
    additionalProperties : bool
  }.

(** * The input composer: [getNestedData] inside [prepareNodeInputData] *)

(** The body of [Object.keys(schema.properties).forEach(...)], with the
    recursive call taken as a parameter. *)
Definition forEach_property (inherited : Value → string → option Value)
    (getNestedData : Schema → Value → option Obj)
    (values : Value) : list (string * Schema) → Obj → option Obj :=
  fix go (props : list (string * Schema)) (inputData : Obj) : option Obj :=
    match props with
    | [] => Some inputData
    | (key, prop) :: props' =>
        match get_member inherited values key with
        | None => None
        | Some None => go props' inputData
        | Some (Some v) =>
            if decide (type prop = Some "object") then
              match getNestedData prop v with
              | None => None
              | Some nested => go props' (assign key (VObj nested) inputData)
              end
            else go props' (assign key v inputData)
        end
    end.

Fixpoint getNestedData (inherited : Value → string → option Value)
    (schema : Schema) (values : Value) {struct schema} : option Obj :=
  match schema with
  | MkSchema _ props additional =>
      let declared :=
        match props with
        | Some props =>
            forEach_property inherited (getNestedData inherited) values props []
        | None => Some []
        end in
      match declared with
      | None => None
      | Some inputData =>
          if additional then Some (spread inputData values) else Some inputData
      end
  end.

(** No property the schema declares, at any depth, is named [__proto__]:
    the composition assigns to properties of [inputData] only, never to
    its prototype. *)
Fixpoint proto_free (schema : Schema) : bool :=
  match schema with
  | MkSchema _ props _ =>
      match props with
      | None => true
      | Some props =>
          (fix go (props : list (string * Schema)) : bool :=
             match props with
             | [] => true
             | (key, prop) :: props' =>
                 bool_decide (key ≠ "__proto__") && proto_free prop && go props'
             end) props
      end
  end.

(** * Data model *)

Module XY.
Record t : Type := mk { x : Z; y : Z }.
End XY.

(** An entry of [node.data.connections], and React Flow's [Connection].
    A handle that is [null] or [undefined] is [None]: the two are not told
    apart.  Where the source compares handles with [===], which does tell
    them apart, the model is that of the source as long as one of the two
    handles compared is a string. *)
Module Conn.
Record t : Type := mk {
  source : string;
  sourceHandle : option string;
  target : string;
  targetHandle : option string
}.
End Conn.

Module Data.
Record t : Type := mk {
  blockType : string;
  title : string;
  inputSchema : option Schema;
  outputSchema : option Schema;
  hardcodedValues : Obj;
  connections : list Conn.t;
  isOutputOpen : bool;
  status : option string;
  output_data : option Value;
  block_id : string;
  backend_id : option string
}.
End Data.

(** A React Flow node carrying [CustomNodeData].  The constant
    [type: 'custom'] and the [setHardcodedValues] callback are left out;
    [selected] is the truthiness of the optional flag. *)
Module Node.
Record t : Type := mk {
  id : string;
  position : XY.t;
  selected : bool;
  data : Data.t
}.
End Node.

Module Edge.
Record t : Type := mk {
  id : string;
  source : string;
  sourceHandle : option string;
  target : string;
  targetHandle : option string;
  selected : bool;
  (* data.edgeColor, also the colour of markerEnd *)
  edgeColor : string;
  (* data.sourcePos: [getNodePos] gives the position, or 0 as [None] *)
  sourcePos : option XY.t
}.
End Edge.

Module Block.
Record t : Type := mk {
  id : string;
  name : string;
  inputSchema : option Schema;
  outputSchema : option Schema
}.
End Block.

(** The persisted graph, with the fields this component reads. *)
Module Stub.
Record t : Type := mk { name : string; node_id : string }.
End Stub.

Module Link.
Record t : Type := mk {
  source_id : string;
  sink_id : string;
  source_name : string;
  sink_name : string
}.
End Link.

Module GraphNode.
Record t : Type := mk {
  id : string;
  block_id : string;
  input_default : Obj;
  input_nodes : list Stub.t;
  output_nodes : list Stub.t;
  (* metadata.position *)
  position : XY.t
}.
End GraphNode.

Module Graph.
Record t : Type := mk {
  id : string;
  name : string;
  description : string;
  is_template : bool;
  nodes : list GraphNode.t;
  links : list Link.t
}.
End Graph.

(** The record [saveAgent] assembles; [id] is [savedAgent?.id]. *)
Module Payload.
Record t : Type := mk {
  id : option string;
  name : string;
  description : string;
  nodes : list GraphNode.t;
  links : list Link.t
}.
End Payload.

(** The commands handed to [history.push].  The [undo] and [redo] closures
    of a command are determined by its kind and payload. *)
Inductive Command : Type :=
| ADD_NODE (payload : Node.t)
| DELETE_NODE (payload : Node.t)
| ADD_EDGE (payload : Edge.t)
| DELETE_EDGE (payload : Edge.t)
| UPDATE_NODE_POSITION (nodeId : string) (oldPosition newPosition : XY.t).

(** The state of [FlowEditor]: its [useState] cells, its two refs, and
    [pushed], the commands passed to [history.push] so far, oldest first. *)
Module State.
Record t : Type := mk {
  nodes : list Node.t;
  edges : list Edge.t;
  nodeId : N;
  availableNodes : list Block.t;
  savedAgent : option Graph.t;
  agentDescription : string;
  agentName : string;
  copiedNodes : list Node.t;
  copiedEdges : list Edge.t;
  initialPositionRef : gmap string XY.t;
  isDragging : bool;
  pushed : list Command
}.
End State.

(** Functional updates of one field. *)
Definition with_data (f : Data.t → Data.t) (n : Node.t) : Node.t :=
  Node.mk (Node.id n) (Node.position n) (Node.selected n) (f (Node.data n)).

Definition with_connections (cs : list Conn.t) (d : Data.t) : Data.t :=
  Data.mk (Data.blockType d) (Data.title d) (Data.inputSchema d)
    (Data.outputSchema d) (Data.hardcodedValues d) cs (Data.isOutputOpen d)
    (Data.status d) (Data.output_data d) (Data.block_id d) (Data.backend_id d).

Definition with_status (st : option string) (d : Data.t) : Data.t :=
  Data.mk (Data.blockType d) (Data.title d) (Data.inputSchema d)
    (Data.outputSchema d) (Data.hardcodedValues d) (Data.connections d)
    (Data.isOutputOpen d) st (Data.output_data d) (Data.block_id d)
    (Data.backend_id d).

Definition with_output_data (o : option Value) (d : Data.t) : Data.t :=
  Data.mk (Data.blockType d) (Data.title d) (Data.inputSchema d)
    (Data.outputSchema d) (Data.hardcodedValues d) (Data.connections d)
    (Data.isOutputOpen d) (Data.status d) o (Data.block_id d)
    (Data.backend_id d).

Definition with_backend_id (b : option string) (d : Data.t) : Data.t :=
  Data.mk (Data.blockType d) (Data.title d) (Data.inputSchema d)
    (Data.outputSchema d) (Data.hardcodedValues d) (Data.connections d)
    (Data.isOutputOpen d) (Data.status d) (Data.output_data d)
    (Data.block_id d) b.

Definition with_id (i : string) (n : Node.t) : Node.t :=
  Node.mk i (Node.position n) (Node.selected n) (Node.data n).

Definition with_position (p : XY.t) (n : Node.t) : Node.t :=
  Node.mk (Node.id n) p (Node.selected n) (Node.data n).

Definition with_selected (b : bool) (n : Node.t) : Node.t :=
  Node.mk (Node.id n) (Node.position n) b (Node.data n).

Definition set_nodes (ns : list Node.t) (s : State.t) : State.t :=
  State.mk ns (State.edges s) (State.nodeId s) (State.availableNodes s)
    (State.savedAgent s) (State.agentDescription s) (State.agentName s)
    (State.copiedNodes s) (State.copiedEdges s) (State.initialPositionRef s)
    (State.isDragging s) (State.pushed s).

Definition set_edges (es : list Edge.t) (s : State.t) : State.t :=
  State.mk (State.nodes s) es (State.nodeId s) (State.availableNodes s)
    (State.savedAgent s) (State.agentDescription s) (State.agentName s)
    (State.copiedNodes s) (State.copiedEdges s) (State.initialPositionRef s)
    (State.isDragging s) (State.pushed s).

Definition set_nodeId (k : N) (s : State.t) : State.t :=
  State.mk (State.nodes s) (State.edges s) k (State.availableNodes s)
    (State.savedAgent s) (State.agentDescription s) (State.agentName s)
    (State.copiedNodes s) (State.copiedEdges s) (State.initialPositionRef s)
    (State.isDragging s) (State.pushed s).

Definition set_savedAgent (g : option Graph.t) (s : State.t) : State.t :=
  State.mk (State.nodes s) (State.edges s) (State.nodeId s)
    (State.availableNodes s) g (State.agentDescription s) (State.agentName s)
    (State.copiedNodes s) (State.copiedEdges s) (State.initialPositionRef s)
    (State.isDragging s) (State.pushed s).

Definition set_copied (ns : list Node.t) (es : list Edge.t) (s : State.t)
  : State.t :=
  State.mk (State.nodes s) (State.edges s) (State.nodeId s)
    (State.availableNodes s) (State.savedAgent s) (State.agentDescription s)
    (State.agentName s) ns es (State.initialPositionRef s)
    (State.isDragging s) (State.pushed s).

Definition set_drag (ref : gmap string XY.t) (dragging : bool) (s : State.t)
  : State.t :=
  State.mk (State.nodes s) (State.edges s) (State.nodeId s)
    (State.availableNodes s) (State.savedAgent s) (State.agentDescription s)
    (State.agentName s) (State.copiedNodes s) (State.copiedEdges s) ref
    dragging (State.pushed s).

(** [history.push(command)] *)
Definition history_push (c : Command) (s : State.t) : State.t :=
  State.mk (State.nodes s) (State.edges s) (State.nodeId s)
    (State.availableNodes s) (State.savedAgent s) (State.agentDescription s)
    (State.agentName s) (State.copiedNodes s) (State.copiedEdges s)
    (State.initialPositionRef s) (State.isDragging s) (State.pushed s ++ [c]).

(** What a handler does: it runs to completion, or it throws and leaves
    the effects made so far. *)
Inductive Result : Type :=
| Done (s : State.t)
| Threw (s : State.t).

Definition state_of (r : Result) : State.t :=
  match r with Done s | Threw s => s end.

(** [nodes.find(node => node.id === id)] *)
Definition find_node (id : string) (nodes : list Node.t) : option Node.t :=
  List.find (λ node, bool_decide (Node.id node = id)) nodes.

(** * The connection cache *)

Inductive Action : Type := add | remove.

Definition conn_of_edge (edge : Edge.t) : Conn.t :=
  Conn.mk (Edge.source edge) (Edge.sourceHandle edge)
    (Edge.target edge) (Edge.targetHandle edge).

(** The test of the filter in [updateNodesOnEdgeChange]: the four
    components compared with [===].  For an edge both of whose handles are
    strings this is the comparison of the source; a missing handle of the
    edge is taken to match a missing handle of the connection, be they
    [null] or [undefined]. *)
Definition conn_matches (edge : Edge.t) (conn : Conn.t) : Prop :=
  Conn.source conn = Edge.source edge ∧
  Conn.target conn = Edge.target edge ∧
  Conn.sourceHandle conn = Edge.sourceHandle edge ∧
  Conn.targetHandle conn = Edge.targetHandle edge.

#[global] Instance conn_matches_dec edge conn : Decision (conn_matches edge conn).
Proof. unfold conn_matches. apply _. Defined.

Definition updateNodesOnEdgeChange (edge : Edge.t) (action : Action)
    (nds : list Node.t) : list Node.t :=
  (λ node,
     if decide (Node.id node = Edge.source edge ∨ Node.id node = Edge.target edge)
     then
       let connections :=
         match action with
         | add => Data.connections (Node.data node) ++ [conn_of_edge edge]
         | remove =>
             filter (λ conn, ¬ conn_matches edge conn)
               (Data.connections (Node.data node))
         end in
       with_data (with_connections connections) node
     else node) <$> nds.

(** What a call returns: a value, or a TypeError. *)
Inductive Outcome (A : Type) : Type :=
| Returns (a : A)
| TypeError.
Arguments Returns {A} a.
Arguments TypeError {A}.

(** [getOutputType]: the result of a [return] is a string or, when the
    property carries no [type], [undefined].  Reading [.type] of a missing
    property, or indexing missing [properties], is a TypeError.  Handles
    are taken to be named unlike the members of the runtime's
    [Object.prototype], which [properties[handleId]] would find. *)
Definition getOutputType (nodes : list Node.t) (id handleId : string)
  : Outcome (option string) :=
  match find_node id nodes with
  | None => Returns (Some "unknown")
  | Some node =>
      match Data.outputSchema (Node.data node) with
      | None => Returns (Some "unknown")
      | Some outputSchema =>
          match properties outputSchema with
          | None => TypeError
          | Some props =>
              match obj_get handleId props with
              | None => TypeError
              | Some prop => Returns (type prop)
              end
          end
      end
  end.

(** [getNodePos]: the position, or the number 0 as [None]. *)
Definition getNodePos (nodes : list Node.t) (id : string) : option XY.t :=
  Node.position <$> find_node id nodes.

(** A [null] handle used as a property key or in a template literal.
    (A handle that is [undefined] would read "undefined" there.) *)
Definition handle_text (h : option string) : string := default "null" h.

Definition falsy (h : option string) : Prop := h = None ∨ h = Some "".

(** React Flow's [connectionExists] and [addEdge] (library code, as of
    React Flow 11): an edge without source or target, or one that joins
    two ports that are joined already, is not added. *)
Definition connectionExists (edge : Edge.t) (edges : list Edge.t) : bool :=
  bool_decide (Exists (λ el,
    Edge.source el = Edge.source edge ∧
    Edge.target el = Edge.target edge ∧
    (Edge.sourceHandle el = Edge.sourceHandle edge ∨
     (falsy (Edge.sourceHandle el) ∧ falsy (Edge.sourceHandle edge))) ∧
    (Edge.targetHandle el = Edge.targetHandle edge ∨
     (falsy (Edge.targetHandle el) ∧ falsy (Edge.targetHandle edge)))) edges).

Definition addEdge (edge : Edge.t) (edges : list Edge.t) : list Edge.t :=
  if decide (Edge.source edge = "" ∨ Edge.target edge = "") then edges
  else if connectionExists edge edges then edges
  else edges ++ [edge].

(** [onConnect].  The updater given to [setEdges] pushes the command and
    calls [updateNodesOnEdgeChange], which queues a first update of the
    nodes; the [setNodes] that follows queues a second one. *)
Definition onConnect (getTypeColor : option string → string)
    (connection : Conn.t) (s : State.t) : Result :=
  match getOutputType (State.nodes s) (Conn.source connection)
          (handle_text (Conn.sourceHandle connection)) with
  | TypeError => Threw s
  | Returns outputType =>
      let edgeColor := getTypeColor outputType in
      let sourcePos := getNodePos (State.nodes s) (Conn.source connection) in
      let newEdge :=
        Edge.mk
          (Conn.source connection +:+ "_" +:+
           handle_text (Conn.sourceHandle connection) +:+ "_" +:+
           Conn.target connection +:+ "_" +:+
           handle_text (Conn.targetHandle connection))
          (Conn.source connection) (Conn.sourceHandle connection)
          (Conn.target connection) (Conn.targetHandle connection)
          false edgeColor sourcePos in
      let s1 := set_edges (addEdge newEdge (State.edges s)) s in
      let s2 := history_push (ADD_EDGE newEdge) s1 in
      let s3 := set_nodes (updateNodesOnEdgeChange newEdge add (State.nodes s2)) s2 in
      Done (set_nodes
        ((λ node,
            if decide (Node.id node = Conn.target connection ∨
                       Node.id node = Conn.source connection)
            then with_data
                   (λ d, with_connections (Data.connections d ++ [connection]) d)
                   node
            else node) <$> State.nodes s3) s3)
  end.

(** The changes React Flow reports, restricted to the kinds that remove,
    move or select an element. *)
Inductive EdgeChange : Type :=
| EdgeRemove (id : string)
| EdgeSelect (id : string) (selected : bool).

Definition edge_change_id (c : EdgeChange) : string :=
  match c with EdgeRemove id | EdgeSelect id _ => id end.

Definition edge_with_selected (b : bool) (e : Edge.t) : Edge.t :=
  Edge.mk (Edge.id e) (Edge.source e) (Edge.sourceHandle e) (Edge.target e)
    (Edge.targetHandle e) b (Edge.edgeColor e) (Edge.sourcePos e).

(** React Flow's [applyEdgeChanges] (library code): an element with a
    [remove] change is dropped, otherwise its changes are applied in
    order. *)
Definition applyEdgeChanges (changes : list EdgeChange) (eds : list Edge.t)
  : list Edge.t :=
  omap (λ item,
    let currentChanges :=
      filter (λ c, edge_change_id c = Edge.id item) changes in
    foldl (λ acc c,
             match acc, c with
             | None, _ => None
             | Some _, EdgeRemove _ => None
             | Some e, EdgeSelect _ b => Some (edge_with_selected b e)
             end) (Some item) currentChanges) eds.

Definition find_edge (id : string) (edges : list Edge.t) : option Edge.t :=
  List.find (λ edge, bool_decide (Edge.id edge = id)) edges.

Definition onEdgesChange (changes : list EdgeChange) (s : State.t) : State.t :=
  let s1 :=
    foldl (λ acc change,
             match change with
             | EdgeRemove id =>
                 match find_edge id (State.edges s) with
                 | Some removedEdge =>
                     let acc1 := history_push (DELETE_EDGE removedEdge) acc in
                     set_nodes
                       (updateNodesOnEdgeChange removedEdge remove
                          (State.nodes acc1)) acc1
                 | None => acc
                 end
             | EdgeSelect _ _ => acc
             end) s changes in
  set_edges (applyEdgeChanges changes (State.edges s1)) s1.

(** [onEdgesDelete].  The last two conjuncts of the source compare each
    handle of [edge] with itself. *)
Definition onEdgesDelete (edgesToDelete : list Edge.t) (s : State.t) : State.t :=
  set_nodes
    ((λ node,
        with_data
          (λ d, with_connections
             (filter (λ conn,
                ¬ Exists (λ edge,
                    Edge.source edge = Conn.source conn ∧
                    Edge.target edge = Conn.target conn ∧
                    Edge.sourceHandle edge = Edge.sourceHandle edge ∧
                    Edge.targetHandle edge = Edge.targetHandle edge)
                  edgesToDelete)
                (Data.connections d)) d)
          node) <$> State.nodes s) s.

(** * Moving nodes *)

Definition MINIMUM_MOVE_BEFORE_LOG : Z := 50.

(** Canvas coordinates are taken as integers.  The source compares
    [Math.sqrt(dx^2 + dy^2)] with the threshold; the square root of a
    non-negative number exceeds 50 exactly when the number exceeds 50^2,
    which is the comparison made here.  On integers the arithmetic of the
    source, which is that of double precision, is exact or far above the
    threshold; what it does on other coordinates is [Double.movedEnough]
    below. *)
Definition squaredDistance (oldPosition newPosition : XY.t) : Z :=
  (XY.x newPosition - XY.x oldPosition) ^ 2 +
  (XY.y newPosition - XY.y oldPosition) ^ 2.

Definition movedEnough (oldPosition newPosition : XY.t) : bool :=
  bool_decide (MINIMUM_MOVE_BEFORE_LOG ^ 2 < squaredDistance oldPosition newPosition)%Z.

(** The test [distanceMoved > MINIMUM_MOVE_BEFORE_LOG] as the source
    evaluates it: the coordinates are binary64 numbers, and every
    operation rounds to the nearest one.  [Math.pow(d, 2)] is the rounded
    square of [d]. *)
Module Double.
Import PrimFloat.

Record position : Type := mk { x : float; y : float }.

Definition MINIMUM_MOVE_BEFORE_LOG : float := 50%float.

Definition pow2 (d : float) : float := (d * d)%float.

Definition distanceMoved (oldPosition newPosition : position) : float :=
  sqrt (pow2 (x newPosition - x oldPosition) +
        pow2 (y newPosition - y oldPosition))%float.

Definition movedEnough (oldPosition newPosition : position) : bool :=
  ltb MINIMUM_MOVE_BEFORE_LOG (distanceMoved oldPosition newPosition).

(** How many commands [onNodesChangeEnd] pushes for a node dragged from
    [oldPosition] to [newPosition]. *)
Definition pushed (oldPosition newPosition : position) : nat :=
  if movedEnough oldPosition newPosition then 1 else 0.



(** A drag from the origin to (30.000000000000004, 40), the first
    coordinate being the binary64 number next above 30. *)
Definition origin : position := mk 0%float 0%float.

Definition just_beyond : position := mk 0x1.e000000000001p+4%float 40%float.
End Double.

Inductive NodeChange : Type :=
| NodeRemove (id : string)
| NodePosition (id : string) (position : option XY.t)
| NodeSelect (id : string) (selected : bool).

Definition node_change_id (c : NodeChange) : string :=
  match c with NodeRemove id | NodePosition id _ | NodeSelect id _ => id end.

(** React Flow's [applyNodeChanges] (library code), on these changes. *)
Definition applyNodeChanges (changes : list NodeChange) (nds : list Node.t)
  : list Node.t :=
  omap (λ item,
    let currentChanges :=
      filter (λ c, node_change_id c = Node.id item) changes in
    foldl (λ acc c,
             match acc, c with
             | None, _ => None
             | Some _, NodeRemove _ => None
             | Some n, NodePosition _ (Some p) => Some (with_position p n)
             | Some n, NodePosition _ None => Some n
             | Some n, NodeSelect _ b => Some (with_selected b n)
             end) (Some item) currentChanges) nds.

(** One round of the [forEach] of [onNodesChange].  A position change
    without a position makes [newPosition.x] throw. *)
Definition onNodesChange_each (nodes : list Node.t) (change : NodeChange)
    (s : State.t) : Result :=
  match change with
  | NodeRemove id =>
      match find_node id nodes with
      | Some removedNode => Done (history_push (DELETE_NODE removedNode) s)
      | None => Done s
      end
  | NodePosition id newPosition =>
      if State.isDragging s then Done s
      else
        match find_node id nodes with
        | None => Done s
        | Some movedNode =>
            let oldPosition :=
              default (Node.position movedNode) (State.initialPositionRef s !! id) in
            match newPosition with
            | None => Threw s
            | Some newPosition =>
                if movedEnough oldPosition newPosition then
                  let s1 :=
                    history_push (UPDATE_NODE_POSITION id oldPosition newPosition) s in
                  Done (set_drag (<[id := newPosition]> (State.initialPositionRef s1))
                          (State.isDragging s1) s1)
                else Done s
            end
        end
  | NodeSelect _ _ => Done s
  end.

Fixpoint onNodesChange_forEach (nodes : list Node.t) (changes : list NodeChange)
    (s : State.t) : Result :=
  match changes with
  | [] => Done s
  | change :: rest =>
      match onNodesChange_each nodes change s with
      | Done s1 => onNodesChange_forEach nodes rest s1
      | Threw s1 => Threw s1
      end
  end.

Definition onNodesChange (changes : list NodeChange) (s : State.t) : Result :=
  match onNodesChange_forEach (State.nodes s) changes s with
  | Done s1 => Done (set_nodes (applyNodeChanges changes (State.nodes s1)) s1)
  | Threw s1 => Threw s1
  end.

Definition onNodesChangeStart (node : Node.t) (s : State.t) : State.t :=
  set_drag (<[Node.id node := Node.position node]> (State.initialPositionRef s))
    true s.

Definition onNodesChangeEnd (node : option Node.t) (s : State.t) : State.t :=
  match node with
  | None => s
  | Some node =>
      let s1 := set_drag (State.initialPositionRef s) false s in
      match State.initialPositionRef s1 !! Node.id node with
      | None => s1
      | Some oldPosition =>
          let newPosition := Node.position node in
          let s2 :=
            if movedEnough oldPosition newPosition then
              history_push
                (UPDATE_NODE_POSITION (Node.id node) oldPosition newPosition) s1
            else s1 in
          set_drag (delete (Node.id node) (State.initialPositionRef s2))
            (State.isDragging s2) s2
      end
  end.

(** A drag gesture as React Flow delivers it: [onNodeDragStart] on the
    node at its start position, position changes while the node is
    dragged, and [onNodeDragStop] on the node at its end position. *)
Fixpoint drag_moves (moves : list (list NodeChange)) (s : State.t) : Result :=
  match moves with
  | [] => Done s
  | changes :: rest =>
      match onNodesChange changes s with
      | Done s1 => drag_moves rest s1
      | Threw s1 => Threw s1
      end
  end.

Definition drag (node : Node.t) (moves : list (list NodeChange))
    (endPosition : XY.t) (s : State.t) : Result :=
  match drag_moves moves (onNodesChangeStart node s) with
  | Done s1 => Done (onNodesChangeEnd (Some (with_position endPosition node)) s1)
  | Threw s1 => Threw s1
  end.

Definition is_removal (c : NodeChange) : Prop :=
  match c with NodeRemove _ => True | _ => False end.

#[global] Instance is_removal_dec c : Decision (is_removal c).
Proof. destruct c; simpl; apply _. Defined.

(** * Adding a node *)

(** [addNode]; [rx] and [ry] are the two values of [Math.random() * 400]. *)
Definition addNode (blockId nodeType : string) (rx ry : Z) (s : State.t)
  : State.t :=
  match List.find (λ node, bool_decide (Block.id node = blockId))
          (State.availableNodes s) with
  | None => s
  | Some nodeSchema =>
      let newNode :=
        Node.mk (pretty (State.nodeId s)) (XY.mk rx ry) false
          (Data.mk nodeType (nodeType +:+ " " +:+ pretty (State.nodeId s))
             (Block.inputSchema nodeSchema) (Block.outputSchema nodeSchema)
             [] [] false None None blockId None) in
      let s1 := set_nodes (State.nodes s ++ [newNode]) s in
      let s2 := set_nodeId (State.nodeId s1 + 1)%N s1 in
      history_push (ADD_NODE newNode) s2
  end.

(** * Saving *)

(** What [console.error] receives in [prepareNodeInputData]. *)
Inductive LogEntry : Type :=
| SchemaNotFound (block_id : string).

(** [prepareNodeInputData]: the entries logged as errors, and the payload,
    [None] when [getNestedData] throws. *)
Definition prepareNodeInputData (inherited : Value → string → option Value)
    (availableNodes : list Block.t) (node : Node.t)
  : list LogEntry * option Obj :=
  let blockSchema :=
    List.find (λ n, bool_decide (Block.id n = Data.block_id (Node.data node)))
      availableNodes ≫= Block.inputSchema in
  match blockSchema with
  | None => ([SchemaNotFound (Data.block_id (Node.data node))], Some [])
  | Some blockSchema =>
      ([], getNestedData inherited blockSchema
             (VObj (Data.hardcodedValues (Node.data node))))
  end.

(** The template literal [`${block_id}_${x}_${y}`]. *)
Definition node_key (block_id : string) (position : XY.t) : string :=
  block_id +:+ "_" +:+ pretty (XY.x position) +:+ "_" +:+ pretty (XY.y position).

Definition key_of_node (node : Node.t) : string :=
  node_key (Data.block_id (Node.data node)) (Node.position node).

Definition key_of_backendNode (backendNode : GraphNode.t) : string :=
  node_key (GraphNode.block_id backendNode) (GraphNode.position backendNode).

(** The inner [nodes.forEach] that fills [blockIdToNodeIdMap]. *)
Definition record_keys (nodes : list Node.t) (m : gmap string string)
  : gmap string string :=
  foldl (λ acc node, <[key_of_node node := Node.id node]> acc) m nodes.

(** The map once [nodes.map] has run: every round fills it again. *)
Definition blockIdToNodeIdMap (nodes : list Node.t) : gmap string string :=
  foldl (λ acc _, record_keys nodes acc) ∅ nodes.

Definition formatNode (inherited : Value → string → option Value)
    (availableNodes : list Block.t) (edges : list Edge.t)
    (node : Node.t) : option GraphNode.t :=
  inputDefault ← (prepareNodeInputData inherited availableNodes node).2;
  let inputNodes :=
    (λ edge, Stub.mk (default "" (Edge.targetHandle edge)) (Edge.source edge))
      <$> filter (λ edge, Edge.target edge = Node.id node) edges in
  let outputNodes :=
    (λ edge, Stub.mk (default "" (Edge.sourceHandle edge)) (Edge.target edge))
      <$> filter (λ edge, Edge.source edge = Node.id node) edges in
  Some (GraphNode.mk (Node.id node) (Data.block_id (Node.data node))
          inputDefault inputNodes outputNodes (Node.position node)).

Definition or_default (s d : string) : string :=
  if decide (s = "") then d else s.

(** The payload of [saveAgent], [None] when composing an input throws. *)
Definition build_payload (inherited : Value → string → option Value)
    (s : State.t) : option Payload.t :=
  formattedNodes ←
    mapM (formatNode inherited (State.availableNodes s) (State.edges s))
      (State.nodes s);
  let links :=
    (λ edge, Link.mk (Edge.source edge) (Edge.target edge)
               (default "" (Edge.sourceHandle edge))
               (default "" (Edge.targetHandle edge))) <$> State.edges s in
  Some (Payload.mk (Graph.id <$> State.savedAgent s)
          (or_default (State.agentName s) "Agent Name")
          (or_default (State.agentDescription s) "Agent Description")
          formattedNodes links).

(** The remote service; a call that fails is [None]. *)
Module Api.
Record t : Type := mk {
  createGraph : Payload.t → option Graph.t;
  createTemplate : Payload.t → option Graph.t;
  updateGraph : string → Payload.t → option Graph.t;
  updateTemplate : string → Payload.t → option Graph.t
}.
End Api.

Inductive RemoteCall : Type :=
| CreateGraph (payload : Payload.t)
| CreateTemplate (payload : Payload.t)
| UpdateGraph (id : string) (payload : Payload.t)
| UpdateTemplate (id : string) (payload : Payload.t).

Definition perform (api : Api.t) (call : RemoteCall) : option Graph.t :=
  match call with
  | CreateGraph payload => Api.createGraph api payload
  | CreateTemplate payload => Api.createTemplate api payload
  | UpdateGraph id payload => Api.updateGraph api id payload
  | UpdateTemplate id payload => Api.updateTemplate api id payload
  end.

(** How the promise of [saveAgent] settles: with the value returned
    ([None] for a bare [return]), or rejected. *)
Inductive Settled : Type :=
| Resolved (value : option string)
| Rejected.

Module Saved.
Record t : Type := mk {
  calls : list RemoteCall;
  settled : Settled;
  state : State.t
}.
End Saved.

(** The nodes built from the response. *)
Definition updatedNodes (nodes : list Node.t) (m : gmap string string)
    (backendNodes : list GraphNode.t) : list Node.t :=
  omap (λ backendNode,
    frontendNodeId ← m !! key_of_backendNode backendNode;
    frontendNode ← find_node frontendNodeId nodes;
    Some (with_data (with_backend_id (Some (GraphNode.id backendNode)))
            (with_position (GraphNode.position backendNode) frontendNode)))
    backendNodes.

(** [saveAgent].  [nodes] and [edges] are those of the closure, so the
    nodes set at the end are built from the nodes as they were on entry.
    [deepEquals] of lib/utils is a parameter, and so is [inherited], the
    lookup in the prototypes of the runtime that [getNestedData] falls
    back on. *)
Definition saveAgent (inherited : Value → string → option Value)
    (deepEquals : Payload.t → Graph.t → bool) (api : Api.t)
    (asTemplate : bool) (s : State.t) : Saved.t :=
  let s1 :=
    set_nodes (with_data (with_status None) <$> State.nodes s) s in
  match build_payload inherited s with
  | None => Saved.mk [] Rejected s1
  | Some payload =>
      let call :=
        match State.savedAgent s with
        | Some savedAgent =>
            if deepEquals payload savedAgent then None
            else if Graph.is_template savedAgent
            then Some (UpdateTemplate (Graph.id savedAgent) payload)
            else Some (UpdateGraph (Graph.id savedAgent) payload)
        | None =>
            if asTemplate then Some (CreateTemplate payload)
            else Some (CreateGraph payload)
        end in
      match call with
      | None => Saved.mk [] (Resolved None) s1
      | Some call =>
          match perform api call with
          | None => Saved.mk [call] Rejected s1
          | Some newSavedAgent =>
              let s2 := set_savedAgent (Some newSavedAgent) s1 in
              Saved.mk [call] (Resolved (Some (Graph.id newSavedAgent)))
                (set_nodes
                   (updatedNodes (State.nodes s)
                      (blockIdToNodeIdMap (State.nodes s))
                      (Graph.nodes newSavedAgent)) s2)
          end
      end
  end.

(** * Copy and paste *)

Module KeyboardEvent.
Record t : Type := mk { ctrlKey : bool; metaKey : bool; key : string }.
End KeyboardEvent.

Definition with_edge_ends (id source target : string) (e : Edge.t) : Edge.t :=
  Edge.mk id source (Edge.sourceHandle e) target (Edge.targetHandle e)
    (Edge.selected e) (Edge.edgeColor e) (Edge.sourcePos e).

(** [a || b] on strings: the empty string is falsy. *)
Definition found_id_or (found : option Node.t) (fallback : string) : string :=
  match found with
  | Some n => or_default (Node.id n) fallback
  | None => fallback
  end.

Definition pasted_nodes (nodeId : N) (copiedNodes : list Node.t) : list Node.t :=
  imap (λ index node,
    let newNodeId := pretty (nodeId + N.of_nat index)%N in
    Node.mk newNodeId
      (XY.mk (XY.x (Node.position node) + 20) (XY.y (Node.position node) + 20))
      (Node.selected node)
      (with_output_data None (with_status None (Node.data node))))
    copiedNodes.

(** [now i] is what [Date.now()] returns for the edge at index [i]. *)
Definition pasted_edges (now : nat → Z) (newNodes : list Node.t)
    (copiedEdges : list Edge.t) : list Edge.t :=
  imap (λ index edge,
    let newSourceId :=
      found_id_or
        (List.find (λ n, bool_decide (Data.title (Node.data n) = Edge.source edge))
           newNodes) (Edge.source edge) in
    let newTargetId :=
      found_id_or
        (List.find (λ n, bool_decide (Data.title (Node.data n) = Edge.target edge))
           newNodes) (Edge.target edge) in
    with_edge_ends
      (newSourceId +:+ "_" +:+ handle_text (Edge.sourceHandle edge) +:+ "_" +:+
       newTargetId +:+ "_" +:+ handle_text (Edge.targetHandle edge) +:+ "_" +:+
       pretty (now index))
      newSourceId newTargetId edge)
    copiedEdges.

Definition copy (s : State.t) : State.t :=
  set_copied (filter (λ node, Node.selected node = true) (State.nodes s))
    (filter (λ edge, Edge.selected edge = true) (State.edges s)) s.

Definition paste (now : nat → Z) (s : State.t) : State.t :=
  match State.copiedNodes s with
  | [] => s
  | _ :: _ =>
      let newNodes := pasted_nodes (State.nodeId s) (State.copiedNodes s) in
      let updatedNodes := with_selected false <$> State.nodes s in
      let s1 := set_nodes (updatedNodes ++ newNodes) s in
      let s2 :=
        set_nodeId (State.nodeId s1 + N.of_nat (length (State.copiedNodes s)))%N s1 in
      let newEdges := pasted_edges now newNodes (State.copiedEdges s) in
      set_edges (State.edges s ++ newEdges) s2
  end.

(** The [handleKeyDown] that serves copy and paste. *)
Definition handleKeyDown (now : nat → Z) (event : KeyboardEvent.t)
    (s : State.t) : State.t :=
  if KeyboardEvent.ctrlKey event || KeyboardEvent.metaKey event then
    let s1 :=
      if decide (KeyboardEvent.key event = "c" ∨ KeyboardEvent.key event = "C")
      then copy s else s in
    if decide (KeyboardEvent.key event = "v" ∨ KeyboardEvent.key event = "V")
    then paste now s1 else s1
  else s.

(** * A structural comparison *)

(** Modelled from the spec: [deepEquals] of [@/lib/utils], which is not
    among the sources at hand.  The spec calls it deep structural
    equality: two objects are equal when they have as many keys and agree
    on each of them, two arrays when they agree element by element. *)
Fixpoint deepEquals_value (x y : Value) {struct x} : bool :=
  match x, y with
  | VNull, VNull => true
  | VBool a, VBool b => bool_decide (a = b)
  | VNum a, VNum b => bool_decide (a = b)
  | VStr a, VStr b => bool_decide (a = b)
  | VArr l, VArr l' =>
      (fix go (l l' : list Value) : bool :=
         match l, l' with
         | [], [] => true
         | a :: l, b :: l' => deepEquals_value a b && go l l'
         | _, _ => false
         end) l l'
  | VObj o, VObj o' =>
      bool_decide (length o = length o') &&
      (fix go (o : list (string * Value)) : bool :=
         match o with
         | [] => true
         | (k, v) :: rest =>
             match obj_get k o' with
             | Some v' => deepEquals_value v v'
             | None => false
             end && go rest
         end) o
  | _, _ => false
  end.

Definition deepEquals_position (p q : XY.t) : bool :=
  bool_decide (XY.x p = XY.x q) && bool_decide (XY.y p = XY.y q).

Definition deepEquals_stub (a b : Stub.t) : bool :=
  bool_decide (Stub.name a = Stub.name b) &&
  bool_decide (Stub.node_id a = Stub.node_id b).

Definition deepEquals_link (a b : Link.t) : bool :=
  bool_decide (Link.source_id a = Link.source_id b) &&
  bool_decide (Link.sink_id a = Link.sink_id b) &&
  bool_decide (Link.source_name a = Link.source_name b) &&
  bool_decide (Link.sink_name a = Link.sink_name b).

Fixpoint deepEquals_list {A : Type} (eq : A → A → bool) (l l' : list A) : bool :=
  match l, l' with
  | [], [] => true
  | a :: l, b :: l' => eq a b && deepEquals_list eq l l'
  | _, _ => false
  end.

Definition deepEquals_node (a b : GraphNode.t) : bool :=
  bool_decide (GraphNode.id a = GraphNode.id b) &&
  bool_decide (GraphNode.block_id a = GraphNode.block_id b) &&
  deepEquals_value (VObj (GraphNode.input_default a))
    (VObj (GraphNode.input_default b)) &&
  deepEquals_list deepEquals_stub (GraphNode.input_nodes a) (GraphNode.input_nodes b) &&
  deepEquals_list deepEquals_stub (GraphNode.output_nodes a) (GraphNode.output_nodes b) &&
  deepEquals_position (GraphNode.position a) (GraphNode.position b).

(** Modelled from the spec: the comparison of the assembled record with
    the last-synced copy, on the fields the assembled record has. *)
Definition deepEquals_graph (payload : Payload.t) (savedAgent : Graph.t) : bool :=
  bool_decide (Payload.id payload = Some (Graph.id savedAgent)) &&
  bool_decide (Payload.name payload = Graph.name savedAgent) &&
  bool_decide (Payload.description payload = Graph.description savedAgent) &&
  deepEquals_list deepEquals_node (Payload.nodes payload) (Graph.nodes savedAgent) &&
  deepEquals_list deepEquals_link (Payload.links payload) (Graph.links savedAgent).

(** * Properties of states *)

(** How often the connection of [edge] occurs in the cache of [node]. *)
Definition count_conn (edge : Edge.t) (node : Node.t) : nat :=
  length (filter (conn_matches edge) (Data.connections (Node.data node))).

(** The cache agrees with the edge set: each edge occurs once in the cache
    of its source, once in that of its target, and in no other. *)
Definition cache_consistent (s : State.t) : Prop :=
  ∀ edge node, edge ∈ State.edges s → node ∈ State.nodes s →
    count_conn edge node =
      if decide (Node.id node = Edge.source edge ∨ Node.id node = Edge.target edge)
      then 1 else 0.

(** No node carries the numeral of a number the counter has yet to reach. *)
Definition ids_below_counter (s : State.t) : Prop :=
  ∀ node (k : N), node ∈ State.nodes s → (State.nodeId s ≤ k)%N →
    Node.id node ≠ pretty k.


(** The state [FlowEditor] starts in. *)
Definition initial : State.t :=
  State.mk [] [] 1 [] None "" "" [] [] ∅ false [].

(** The end points of an edge. *)
Definition ends (edge : Edge.t) : string * string :=
  (Edge.source edge, Edge.target edge).

(** [node] is the last node of [nodes] that carries its key. *)
Definition last_with_key (nodes : list Node.t) (node : Node.t) : Prop :=
  ∃ before after, nodes = before ++ node :: after ∧
    Forall (λ other, key_of_node other ≠ key_of_node node) after.

(** The entries [blockIdToNodeIdMap] is filled with, in order. *)
Definition key_entries (nodes : list Node.t) : list (string * string) :=
  (λ node, (key_of_node node, Node.id node)) <$> nodes.

(** The value a declared property gets in the first pass of
    [getNestedData]. *)
Definition declared_value (inherited : Value → string → option Value)
    (prop : Schema) (v : Value) : option Value :=
  if decide (type prop = Some "object")
  then VObj <$> getNestedData inherited prop v
  else Some v.

(** * Sample data *)

Definition str_schema : Schema := MkSchema (Some "string") None false.
Definition num_schema : Schema := MkSchema (Some "number") None false.

Definition nested_schema : Schema :=
  MkSchema (Some "object")
    (Some [("a", str_schema);
           ("b", MkSchema (Some "object") (Some [("c", num_schema)]) false)])
    false.

Definition open_schema : Schema :=
  MkSchema (Some "object") (Some [("a", str_schema)]) true.

Definition open_nested_schema : Schema :=
  MkSchema (Some "object")
    (Some [("b", MkSchema (Some "object") (Some [("c", num_schema)]) false)])
    true.

Definition out_schema : Schema :=
  MkSchema (Some "object") (Some [("out", str_schema)]) false.

Definition sample_data (blockType title block_id : string) (values : Obj)
  : Data.t :=
  Data.mk blockType title (Some open_schema) (Some out_schema) values []
    false None None block_id None.

Definition node_1 : Node.t :=
  Node.mk "1" (XY.mk 0 0) true
    (sample_data "Input" "Input 1" "block-in" [("a", VStr "x")]).

Definition node_2 : Node.t :=
  Node.mk "2" (XY.mk 300 40) true
    (sample_data "Print" "Print 2" "block-print" []).

(** A second node of the block of [node_1], at the same place. *)
Definition node_1_twin : Node.t :=
  Node.mk "2" (XY.mk 0 0) false
    (sample_data "Input" "Input 2" "block-in" []).

Definition catalog : list Block.t :=
  [Block.mk "block-in" "Input" (Some open_schema) (Some out_schema);
   Block.mk "block-print" "Print" (Some open_schema) (Some out_schema)].

Definition flow (nodes : list Node.t) (edges : list Edge.t) (nodeId : N)
    (savedAgent : option Graph.t) : State.t :=
  State.mk nodes edges nodeId catalog savedAgent "" "" [] [] ∅ false [].

Definition conn_1_2 : Conn.t := Conn.mk "1" (Some "out") "2" (Some "a").

Definition edge_1_2 : Edge.t :=
  Edge.mk "1_out_2_a" "1" (Some "out") "2" (Some "a") true "grey" None.

Definition two_nodes : State.t := flow [node_1; node_2] [] 3 None.

Definition wired : State.t := flow [node_1; node_2] [edge_1_2] 3 None.

Definition twins : State.t := flow [node_1; node_1_twin] [] 3 None.

(** A service that keeps what it is sent and names the nodes anew. *)
Definition rename_node (backendNode : GraphNode.t) : GraphNode.t :=
  GraphNode.mk ("srv-" +:+ GraphNode.id backendNode)
    (GraphNode.block_id backendNode) (GraphNode.input_default backendNode)
    (GraphNode.input_nodes backendNode) (GraphNode.output_nodes backendNode)
    (GraphNode.position backendNode).

Definition store (is_template : bool) (payload : Payload.t) : option Graph.t :=
  Some (Graph.mk "graph-7" (Payload.name payload) (Payload.description payload)
          is_template (rename_node <$> Payload.nodes payload)
          (Payload.links payload)).

Definition echo_api : Api.t :=
  Api.mk (store false) (store true) (λ _, store false) (λ _, store true).

(** A service that answers a create with the first node only. *)
Definition store_first (payload : Payload.t) : option Graph.t :=
  Some (Graph.mk "graph-8" (Payload.name payload) (Payload.description payload)
          false (rename_node <$> take 1 (Payload.nodes payload))
          (Payload.links payload)).

Definition first_api : Api.t :=
  Api.mk store_first store_first (λ _, store_first) (λ _, store_first).

Definition clock : nat → Z := λ i, (1700000000000 + Z.of_nat i)%Z.

Definition grey : option string → string := λ _, "grey".

(** The value the first pass of [getNestedData] leaves at [key]: that of
    a declared property whose value can be read. *)
Definition declared_lookup (inherited : Value → string → option Value)
    (schema : Schema) (values : Value) (key : string) : option Value :=
  match properties schema with
  | None => None
  | Some props =>
      match obj_get key props, get_member inherited values key with
      | Some prop, Some (Some v) => declared_value inherited prop v
      | _, _ => None
      end
  end.

(** The sentence of the specification on schemas that allow additional
    properties, read literally: a declared key of object type keeps the
    result of the recursion. *)
Definition declared_keys_stay_recursed
    (inherited : Value → string → option Value) : Prop :=
  ∀ schema values r key prop v nested,
    getNestedData inherited schema values = Some r →
    additionalProperties schema = true →
    properties schema ≫= obj_get key = Some prop →
    type prop = Some "object" →
    get_member inherited values key = Some (Some v) →
    getNestedData inherited prop v = Some nested →
    obj_get key r = Some (VObj nested).

(** A schema none of whose declared properties is of object type. *)
Definition flat (schema : Schema) : Prop :=
  match properties schema with
  | None => True
  | Some props => Forall (λ kp, type kp.2 ≠ Some "object") props
  end.

(** The node built for [backendNode] from the node found for its key. *)
Definition remapped (backendNode : GraphNode.t) (frontendNode : Node.t) : Node.t :=
  with_data (with_backend_id (Some (GraphNode.id backendNode)))
    (with_position (GraphNode.position backendNode) frontendNode).

(** A save that went through: the promise resolved with the identifier
    of [newSavedAgent], which is now the saved agent. *)
Definition saved_as (r : Saved.t) (newSavedAgent : Graph.t) : Prop :=
  Saved.settled r = Resolved (Some (Graph.id newSavedAgent)) ∧
  State.savedAgent (Saved.state r) = Some newSavedAgent.

(** The reading of the remap by which a node stays exactly when its key
    is the key of some node of the response. *)
Definition kept_iff_key_matches (inherited : Value → string → option Value)
  : Prop :=
  ∀ deepEquals api asTemplate s newSavedAgent node,
    let r := saveAgent inherited deepEquals api asTemplate s in
    saved_as r newSavedAgent →
    NoDup (Node.id <$> State.nodes s) →
    node ∈ State.nodes s →
    (∃ new, new ∈ State.nodes (Saved.state r) ∧ Node.id new = Node.id node) ↔
    (∃ backendNode, backendNode ∈ Graph.nodes newSavedAgent ∧
       key_of_backendNode backendNode = key_of_node node).

(** A service that keeps what it is sent, node identifiers included. *)
Definition keep (is_template : bool) (payload : Payload.t) : option Graph.t :=
  Some (Graph.mk "graph-7" (Payload.name payload) (Payload.description payload)
          is_template (Payload.nodes payload) (Payload.links payload)).

Definition keep_api : Api.t :=
  Api.mk (keep false) (keep true) (λ _, keep false) (λ _, keep true).

(** What [echo_api] answers to the first save of [two_nodes]. *)
Definition renamed_graph : Graph.t :=
  Graph.mk "graph-7" "Agent Name" "Agent Description" false
    [GraphNode.mk "srv-1" "block-in" [("a", VStr "x")] [] [] (XY.mk 0 0);
     GraphNode.mk "srv-2" "block-print" [] [] [] (XY.mk 300 40)]
    [].

(** What [first_api] answers to the first save of [twins]. *)
Definition first_graph : Graph.t :=
  Graph.mk "graph-8" "Agent Name" "Agent Description" false
    [GraphNode.mk "srv-1" "block-in" [("a", VStr "x")] [] [] (XY.mk 0 0)]
    [].

(** Whether the character [_] occurs in a string. *)
Fixpoint has_underscore (s : string) : bool :=
  match s with
  | EmptyString => false
  | String c rest => bool_decide (c = "_"%char) || has_underscore rest
  end.

(** * Undo and redo

    The [undo] and [redo] closures a command is pushed with, as updates of
    the state.  The closures of a kind are the same at every place that
    pushes it. *)

Definition command_undo (c : Command) (s : State.t) : State.t :=
  match c with
  | ADD_NODE newNode =>
      set_nodes
        (filter (λ node, Node.id node ≠ Node.id newNode) (State.nodes s)) s
  | DELETE_NODE removedNode => set_nodes (State.nodes s ++ [removedNode]) s
  | ADD_EDGE newEdge =>
      let s1 :=
        set_edges
          (filter (λ edge, Edge.id edge ≠ Edge.id newEdge) (State.edges s)) s in
      set_nodes (updateNodesOnEdgeChange newEdge remove (State.nodes s1)) s1
  | DELETE_EDGE removedEdge => set_edges (State.edges s ++ [removedEdge]) s
  | UPDATE_NODE_POSITION nodeId oldPosition _ =>
      set_nodes
        ((λ node, if decide (Node.id node = nodeId)
                  then with_position oldPosition node else node)
           <$> State.nodes s) s
  end.

Definition command_redo (c : Command) (s : State.t) : State.t :=
  match c with
  | ADD_NODE newNode => set_nodes (State.nodes s ++ [newNode]) s
  | DELETE_NODE removedNode =>
      set_nodes
        (filter (λ node, Node.id node ≠ Node.id removedNode) (State.nodes s)) s
  | ADD_EDGE edge | DELETE_EDGE edge =>
      let s1 := set_edges (addEdge edge (State.edges s)) s in
      set_nodes (updateNodesOnEdgeChange edge add (State.nodes s1)) s1
  | UPDATE_NODE_POSITION nodeId _ newPosition =>
      set_nodes
        ((λ node, if decide (Node.id node = nodeId)
                  then with_position newPosition node else node)
           <$> State.nodes s) s
  end.

(** * Execution events *)

Module ExecutionEvent.
Record t : Type := mk {
  node_id : string;
  status : string;
  output_data : Value
}.
End ExecutionEvent.

Definition with_execution (ev : ExecutionEvent.t) (d : Data.t) : Data.t :=
  Data.mk (Data.blockType d) (Data.title d) (Data.inputSchema d)
    (Data.outputSchema d) (Data.hardcodedValues d) (Data.connections d)
    true (Some (ExecutionEvent.status ev))
    (Some (ExecutionEvent.output_data ev)) (Data.block_id d)
    (Data.backend_id d).

(** [executionData.find(exec => exec.node_id === node.data.backend_id)] *)
Definition find_execution (executionData : list ExecutionEvent.t)
    (node : Node.t) : option ExecutionEvent.t :=
  List.find
    (λ exec, bool_decide
       (Data.backend_id (Node.data node) = Some (ExecutionEvent.node_id exec)))
    executionData.

Definition updateNodesWithExecutionData (executionData : list ExecutionEvent.t)
    (s : State.t) : State.t :=
  set_nodes
    ((λ node,
        match find_execution executionData node with
        | Some nodeExecution => with_data (with_execution nodeExecution) node
        | None => node
        end) <$> State.nodes s) s.

(** * Running *)

(** What [runAgent] asks of the service, in order, and what it logs as an
    error. *)
Inductive AgentCall : Type :=
| SaveCall (call : RemoteCall)
| SubscribeToExecution (id : string)
| RunGraph (id : string).

Inductive RunError : Type :=
| ErrorSavingAgent
| ErrorRunningAgent.

Module Ran.
Record t : Type := mk {
  calls : list AgentCall;
  errors : list RunError;
  state : State.t
}.
End Ran.

(** [runAgent]: [saveAgent()] with its default argument, then the
    subscription and the run unless the identifier is falsy. *)
Definition runAgent (inherited : Value → string → option Value)
    (deepEquals : Payload.t → Graph.t → bool) (api : Api.t)
    (s : State.t) : Ran.t :=
  let saved := saveAgent inherited deepEquals api false s in
  let calls := SaveCall <$> Saved.calls saved in
  match Saved.settled saved with
  | Rejected => Ran.mk calls [ErrorRunningAgent] (Saved.state saved)
  | Resolved None => Ran.mk calls [ErrorSavingAgent] (Saved.state saved)
  | Resolved (Some newAgentId) =>
      if decide (newAgentId = "")
      then Ran.mk calls [ErrorSavingAgent] (Saved.state saved)
      else Ran.mk (calls ++ [SubscribeToExecution newAgentId; RunGraph newAgentId])
             [] (Saved.state saved)
  end.

(** * Loading *)

Definition set_agent (g : Graph.t) (s : State.t) : State.t :=
  State.mk (State.nodes s) (State.edges s) (State.nodeId s)
    (State.availableNodes s) (Some g) (Graph.description g) (Graph.name g)
    (State.copiedNodes s) (State.copiedEdges s) (State.initialPositionRef s)
    (State.isDragging s) (State.pushed s).

(** The node [loadGraph] builds; [None] when the block is not in the
    catalog and [block.id] throws. *)
Definition loaded_node (availableNodes : list Block.t) (node : GraphNode.t)
  : option Node.t :=
  block ← List.find (λ block, bool_decide (Block.id block = GraphNode.block_id node))
            availableNodes;
  Some (Node.mk (GraphNode.id node) (GraphNode.position node) false
          (Data.mk (Block.name block)
             (Block.name block +:+ " " +:+ GraphNode.id node)
             (Block.inputSchema block) (Block.outputSchema block)
             (GraphNode.input_default node) [] false None None
             (Block.id block) None)).

(** [name || undefined] *)
Definition handle_of_name (name : string) : option string :=
  if decide (name = "") then None else Some name.

(** The edge [loadGraph] builds; [nodes] are the nodes of the closure, in
    which [getOutputType] and [getNodePos] look the source up. *)
Definition loaded_edge (getTypeColor : option string → string)
    (nodes : list Node.t) (link : Link.t) : option Edge.t :=
  match getOutputType nodes (Link.source_id link) (Link.source_name link) with
  | TypeError => None
  | Returns outputType =>
      Some (Edge.mk
              (Link.source_id link +:+ "_" +:+ Link.source_name link +:+ "_" +:+
               Link.sink_id link +:+ "_" +:+ Link.sink_name link)
              (Link.source_id link) (handle_of_name (Link.source_name link))
              (Link.sink_id link) (handle_of_name (Link.sink_name link))
              false (getTypeColor outputType)
              (getNodePos nodes (Link.source_id link)))
  end.

Definition loadGraph (getTypeColor : option string → string) (graph : Graph.t)
    (s : State.t) : Result :=
  let s1 := set_agent graph s in
  match mapM (loaded_node (State.availableNodes s)) (Graph.nodes graph) with
  | None => Threw s1
  | Some newNodes =>
      let s2 := set_nodes newNodes s1 in
      match mapM (loaded_edge getTypeColor (State.nodes s)) (Graph.links graph) with
      | None => Threw s2
      | Some newEdges => Done (set_edges newEdges s2)
      end
  end.

(** The links [saveAgent] writes for the edges. *)
Definition link_of_edge (edge : Edge.t) : Link.t :=
  Link.mk (Edge.source edge) (Edge.target edge)
    (default "" (Edge.sourceHandle edge)) (default "" (Edge.targetHandle edge)).

(** A graph two of whose nodes are joined, and a state with a catalog and
    nothing else. *)
Definition linked_graph : Graph.t :=
  Graph.mk "graph-7" "Pipeline" "Reads and prints" false
    [GraphNode.mk "n-in" "block-in" [("a", VStr "x")] [] [] (XY.mk 0 0);
     GraphNode.mk "n-out" "block-print" [] [] [] (XY.mk 300 40)]
    [Link.mk "n-in" "n-out" "out" "a"].

Definition empty_flow : State.t := flow [] [] 1 None.


(** A service that is down. *)
Definition failing_api : Api.t :=
  Api.mk (λ _, None) (λ _, None) (λ _ _, None) (λ _ _, None).

(** An event of the run for the node the service named "srv-1". *)
Definition done_event : ExecutionEvent.t :=
  ExecutionEvent.mk "srv-1" "COMPLETED" (VObj [("out", VStr "x")]).

(** A runtime whose prototypes hold nothing.  The keys of the sample
    data name no member of any prototype, so that on them every runtime
    agrees with this one. *)
Definition no_inherited : Value → string → option Value := λ _ _, None.

(** The reading of the remap by which the identifier of a node becomes
    the identifier the service assigned: after a save that went through,
    a node whose key no other node shares is in the graph under the
    identifier of the node of the response with that key. *)
Definition identifier_replaced (inherited : Value → string → option Value)
  : Prop :=
  ∀ deepEquals api asTemplate s newSavedAgent node backendNode,
    let r := saveAgent inherited deepEquals api asTemplate s in
    saved_as r newSavedAgent →
    NoDup (Node.id <$> State.nodes s) →
    node ∈ State.nodes s →
    (∀ other, other ∈ State.nodes s →
       key_of_node other = key_of_node node → other = node) →
    backendNode ∈ Graph.nodes newSavedAgent →
    key_of_backendNode backendNode = key_of_node node →
    ∃ new, new ∈ State.nodes (Saved.state r) ∧
      Node.id new = GraphNode.id backendNode.

(** An editor that holds [node_1] alone, and what [echo_api] answers to
    its first save. *)
Definition one_node : State.t := flow [node_1] [] 2 None.

Definition renamed_one : Graph.t :=
  Graph.mk "graph-7" "Agent Name" "Agent Description" false
    [GraphNode.mk "srv-1" "block-in" [("a", VStr "x")] [] [] (XY.mk 0 0)]
    [].

(** A graph of the service whose nodes are named "1" and "2", and the
    editor that started empty, has loaded it, has had both nodes selected
    and has copied them.  The counter is still at 1. *)
Definition numbered_graph : Graph.t :=
  Graph.mk "graph-9" "Pipeline" "Reads and prints" false
    [GraphNode.mk "1" "block-in" [("a", VStr "x")] [] [] (XY.mk 0 0);
     GraphNode.mk "2" "block-print" [] [] [] (XY.mk 300 40)]
    [].

Definition loaded_and_copied : State.t :=
  copy
    (state_of
       (onNodesChange [NodeSelect "1" true; NodeSelect "2" true]
          (state_of (loadGraph grey numbered_graph empty_flow)))).



(** An edge both of whose handles are strings. *)
Definition defined_handles (edge : Edge.t) : Prop :=
  is_Some (Edge.sourceHandle edge) ∧ is_Some (Edge.targetHandle edge).

(** * Objects *)

Section objects.
Context {A : Type}.
Implicit Types (o : list (string * A)) (k : string) (v : A).

Lemma obj_get_app k o1 o2 :
  obj_get k (o1 ++ o2) =
    match obj_get k o2 with Some v => Some v | None => obj_get k o1 end.
Proof.
  induction o1 as [|[k1 v1] o1 IH]; simpl.
  - by destruct (obj_get k o2).
  - rewrite IH. destruct (obj_get k o2); [done|]. done.
Qed.

Lemma obj_get_singleton k k' v :
  obj_get k' [(k, v)] = if decide (k = k') then Some v else None.
Proof. done. Qed.

Lemma obj_get_replace k k' v o :
  obj_get k' ((λ kv, if decide (kv.1 = k) then (kv.1, v) else kv) <$> o) =
    if decide (k = k') then (λ _, v) <$> obj_get k o else obj_get k' o.
Proof.
  induction o as [|[k1 v1] o IH]; [by case_decide|].
  rewrite fmap_cons. cbn [fst].
  destruct (decide (k1 = k)) as [->|Hk1]; cbn [obj_get]; rewrite IH;
    destruct (decide (k = k')) as [->|Hk]; cbn [obj_get];
    repeat case_decide; try congruence;
    by destruct (obj_get _ o).
Qed.

Lemma obj_get_set k k' v o :
  obj_get k' (obj_set k v o) = if decide (k = k') then Some v else obj_get k' o.
Proof.
  unfold obj_set, obj_has. case_bool_decide as Hhas.
  - rewrite obj_get_replace. case_decide; [|done].
    destruct Hhas as [x ->]. done.
  - rewrite obj_get_app, obj_get_singleton. case_decide; [done|].
    by destruct (obj_get k' o).
Qed.

End objects.

(** * The input composer *)

Lemma spread_get (inputData : Obj) (values : Value) (k : string) :
  obj_get k (spread inputData values) =
    match obj_get k (own_entries values) with
    | Some v => Some v
    | None => obj_get k inputData
    end.
Proof.
  unfold spread. generalize (own_entries values) as es.
  intros es. revert inputData.
  induction es as [|[k1 v1] es IH]; intros inputData; [done|].
  cbn [foldl obj_get fst snd]. rewrite IH, obj_get_set.
  destruct (obj_get k es); [done|]. by case_decide.
Qed.

Lemma obj_get_assign (k k' : string) (v : Value) (o : Obj) :
  obj_get k' (assign k v o) =
    if decide (k = k' ∧ k ≠ "__proto__") then Some v else obj_get k' o.
Proof.
  unfold assign. destruct (decide (k = "__proto__")) as [Hproto|Hproto].
  - by rewrite decide_False by tauto.
  - rewrite obj_get_set. destruct (decide (k = k')) as [Hk|Hk].
    + by rewrite decide_True.
    + by rewrite decide_False by tauto.
Qed.

Lemma proto_free_declares (schema : Schema) :
  proto_free schema = true →
  properties schema ≫= obj_get "__proto__" = None.
Proof.
  destruct schema as [ty [props|] additional]; [|done]. cbn.
  induction props as [|[key prop] props IH]; [done|].
  intros [[Hkey _]%andb_prop_elim Hrest%Is_true_true]%Is_true_true%andb_prop_elim.
  apply bool_decide_unpack in Hkey.
  cbn [obj_get]. rewrite IH by done. by rewrite decide_False.
Qed.

Section lookup.
Context (inherited : Value → string → option Value).

Lemma get_member_null (values : Value) (k : string) :
  get_member inherited values k = None ↔ values = VNull.
Proof. by destruct values. Qed.

(** An own property is found before anything else is consulted. *)
Lemma get_member_own (values : Value) (k : string) (v : Value) :
  obj_get k (own_entries values) = Some v →
  get_member inherited values k = Some (Some v).
Proof. destruct values; simpl; try done; by intros ->. Qed.

Section forEach.
Context (rec : Schema → Value → option Obj) (values : Value).

Lemma forEach_property_get props inputData r k :
  forEach_property inherited rec values props inputData = Some r →
  obj_get k r =
    match obj_get k props, get_member inherited values k with
    | Some prop, Some (Some v) =>
        if decide (k = "__proto__") then obj_get k inputData
        else if decide (type prop = Some "object")
             then VObj <$> rec prop v else Some v
    | _, _ => obj_get k inputData
    end.
Proof.
  revert inputData.
  induction props as [|[key prop] props IH]; intros inputData Hr.
  { simpl in Hr. by simplify_eq. }
  cbn [forEach_property] in Hr. cbn [obj_get].
  destruct (get_member inherited values key) as [[v|]|] eqn:Hm; [| |done].
  - assert (∃ d, (if decide (type prop = Some "object")
                  then VObj <$> rec prop v else Some v) = Some d ∧
                 forEach_property inherited rec values props
                   (assign key d inputData) = Some r)
      as (d & Hd & Hgo).
    { case_decide; [|by eauto].
      destruct (rec prop v) as [nested|]; [|done]. by eauto. }
    rewrite (IH _ Hgo), obj_get_assign.
    destruct (decide (key = k)) as [->|Hne].
    + rewrite Hm.
      destruct (obj_get k props) as [p|],
        (decide (k = "__proto__")) as [Hproto|Hproto];
        rewrite ?decide_False by tauto; rewrite ?decide_True by tauto; done.
    + rewrite decide_False by tauto.
      by destruct (obj_get k props).
  - rewrite (IH _ Hr).
    destruct (obj_get k props) as [p|]; [done|].
    destruct (decide (key = k)) as [->|]; [|done].
    by rewrite Hm.
Qed.

Lemma forEach_property_flat props inputData :
  values ≠ VNull →
  Forall (λ kp, type kp.2 ≠ Some "object") props →
  is_Some (forEach_property inherited rec values props inputData).
Proof.
  intros Hnull Hflat. revert inputData.
  induction Hflat as [|[key prop] props Hprop _ IH]; intros inputData; [by eexists|].
  cbn [forEach_property].
  destruct (get_member inherited values key) as [[v|]|] eqn:Hm.
  - simpl in Hprop. by rewrite decide_False.
  - done.
  - by apply get_member_null in Hm.
Qed.

End forEach.

Lemma getNestedData_unfold (schema : Schema) (values : Value) :
  getNestedData inherited schema values =
    match
      match properties schema with
      | Some props =>
          forEach_property inherited (getNestedData inherited) values props []
      | None => Some []
      end
    with
    | None => None
    | Some inputData =>
        if additionalProperties schema
        then Some (spread inputData values) else Some inputData
    end.
Proof. by destruct schema. Qed.

(** What the first pass leaves at [key], starting from the empty
    object, when the schema declares no property [__proto__]. *)
Lemma forEach_property_declared (schema : Schema) (values : Value)
    (props : list (string * Schema)) (inputData : Obj) (k : string) :
  proto_free schema = true →
  properties schema = Some props →
  forEach_property inherited (getNestedData inherited) values props []
    = Some inputData →
  obj_get k inputData = declared_lookup inherited schema values k.
Proof.
  intros Hfree Hprops Hgo.
  rewrite (forEach_property_get _ _ _ _ _ k Hgo).
  unfold declared_lookup, declared_value. rewrite Hprops.
  destruct (obj_get k props) as [prop|] eqn:Hprop; [|done].
  destruct (get_member inherited values k) as [[v|]|]; [|done..].
  rewrite decide_False; [done|]. intros ->.
  pose proof (proto_free_declares schema Hfree) as Hnone.
  rewrite Hprops in Hnone. cbn in Hnone. congruence.
Qed.

Lemma getNestedData_declared (schema : Schema) (values : Value) (r : Obj)
    (k : string) :
  proto_free schema = true →
  getNestedData inherited schema values = Some r →
  additionalProperties schema = false →
  obj_get k r = declared_lookup inherited schema values k.
Proof.
  rewrite getNestedData_unfold. intros Hfree Hr Hadd. rewrite Hadd in Hr.
  destruct (properties schema) as [props|] eqn:Hprops.
  - destruct (forEach_property _ _ _ _ _) as [inputData|] eqn:Hgo; [|done].
    simplify_eq. by eapply forEach_property_declared.
  - simplify_eq. unfold declared_lookup. by rewrite Hprops.
Qed.

Lemma getNestedData_additional (schema : Schema) (values : Value) (r : Obj)
    (k : string) :
  proto_free schema = true →
  getNestedData inherited schema values = Some r →
  additionalProperties schema = true →
  obj_get k r =
    match obj_get k (own_entries values) with
    | Some v => Some v
    | None => declared_lookup inherited schema values k
    end.
Proof.
  rewrite getNestedData_unfold. intros Hfree Hr Hadd. rewrite Hadd in Hr.
  destruct (properties schema) as [props|] eqn:Hprops.
  - destruct (forEach_property _ _ _ _ _) as [inputData|] eqn:Hgo; [|done].
    simplify_eq. rewrite spread_get.
    destruct (obj_get k (own_entries values)) as [v|] eqn:Hown; [done|].
    by eapply forEach_property_declared.
  - simplify_eq. rewrite spread_get. unfold declared_lookup. rewrite Hprops.
    by destruct (obj_get k (own_entries values)).
Qed.

Lemma getNestedData_flat (schema : Schema) (o : Obj) :
  flat schema → is_Some (getNestedData inherited schema (VObj o)).
Proof.
  rewrite getNestedData_unfold. unfold flat. intros Hflat.
  destruct (properties schema) as [props|].
  - destruct (forEach_property_flat (getNestedData inherited) (VObj o) props [])
      as [d ->]; [done..|by destruct (additionalProperties schema)].
  - by destruct (additionalProperties schema).
Qed.

Example getNestedData_nested :
  getNestedData inherited nested_schema
    (VObj [("a", VStr "x"); ("b", VObj [("c", VNum 5)])])
  = Some [("a", VStr "x"); ("b", VObj [("c", VNum 5)])].
Proof. reflexivity. Qed.

Example getNestedData_open :
  getNestedData inherited open_schema (VObj [("a", VStr "x"); ("z", VNum 9)])
  = Some [("a", VStr "x"); ("z", VNum 9)].
Proof. reflexivity. Qed.

(** Reading a property of [null] aborts the composition. *)
Example getNestedData_null :
  getNestedData inherited nested_schema (VObj [("b", VNull)]) = None.
Proof. cbn. by destruct (inherited _ _). Qed.

(** A declared property is read like any member: under a property [b] of
    type "object" that declares [length], the string "abc" composes to
    the object that holds its length. *)
Example getNestedData_length :
  getNestedData inherited
    (MkSchema (Some "object")
       (Some [("b", MkSchema (Some "object") (Some [("length", num_schema)]) false)])
       false)
    (VObj [("b", VStr "abc")])
  = Some [("b", VObj [("length", VNum 3)])].
Proof. reflexivity. Qed.

(** A declared property that the value map does not hold itself is taken
    from the prototypes when the runtime finds it there. *)
Example getNestedData_inherited (builtin : Value) :
  inherited (VObj []) "toString" = Some builtin →
  getNestedData inherited
    (MkSchema (Some "object") (Some [("toString", str_schema)]) false) (VObj [])
  = Some [("toString", builtin)].
Proof. intros Hfound. cbn. by rewrite Hfound. Qed.

(** No declared property puts the key [__proto__] into the payload; only
    the merge of the raw value map can. *)
Example getNestedData_proto (o : Obj) :
  ∃ r,
    getNestedData inherited
      (MkSchema (Some "object") (Some [("__proto__", str_schema)]) false) (VObj o)
    = Some r ∧
    obj_get "__proto__" r = None.
Proof.
  destruct (getNestedData_flat
              (MkSchema (Some "object") (Some [("__proto__", str_schema)]) false) o)
    as [r Hr].
  { repeat constructor. done. }
  exists r. split; [done|].
  rewrite getNestedData_unfold in Hr. cbn [properties additionalProperties] in Hr.
  destruct (forEach_property _ _ _ _ _) as [inputData|] eqn:Hgo; [|done].
  simplify_eq. rewrite (forEach_property_get _ _ _ _ _ "__proto__" Hgo).
  by repeat case_match.
Qed.

End lookup.

(** C4, as the specification words it, fails: under a schema that allows
    additional properties the merge of the raw value map overwrites the
    declared keys as well.  With the declared object property [b] of
    nested schema [{c}] and the value [{b: {c: 5, d: 6}}], the key [b]
    ends with the raw [{c: 5, d: 6}], not with the recursed [{c: 5}].
    Every key read is an own key, so this is so whatever the prototypes
    of the runtime hold. *)
Lemma declared_keys_overwritten :
  ¬ ∃ inherited, declared_keys_stay_recursed inherited.
Proof.
  intros [inherited Hclaim].
  pose proof (Hclaim open_nested_schema
    (VObj [("b", VObj [("c", VNum 5); ("d", VNum 6)])])
    [("b", VObj [("c", VNum 5); ("d", VNum 6)])]
    "b" (MkSchema (Some "object") (Some [("c", num_schema)]) false)
    (VObj [("c", VNum 5); ("d", VNum 6)])
    [("c", VNum 5)]
    eq_refl eq_refl eq_refl eq_refl eq_refl eq_refl) as Hb.
  vm_compute in Hb. discriminate Hb.
Qed.

(** C4 (amended).  [getNestedData] walks the declared properties of the
    schema, none of which is taken to be named [__proto__], and reads
    each of them from the value map as JavaScript reads a member: an own
    property first, then [length] of a string or an array, then the
    prototypes of the runtime, whatever they hold.  When the schema does
    not allow additional properties, a key of the result is a declared
    key that could be read, and carries the value copied verbatim or, for
    a property of type "object", the result of the recursion on the
    nested schema.  When the schema allows additional properties, the raw
    value map is merged over that result, so that every own key of the
    value map, declared or not, carries its raw value, and the other keys
    are as before.  On a value map and a schema without object properties
    the composition always returns.  The two examples of the
    specification compose as it says; the string "abc" under a declared
    [length] composes to its length, a declared [toString] that the value
    map lacks is taken from the prototypes if the runtime finds it there,
    and a declared property that reads as [undefined] is left out. *)
Theorem getNestedData_composes (inherited : Value → string → option Value) :
  (∀ schema values r key,
     proto_free schema = true →
     getNestedData inherited schema values = Some r →
     obj_get key r =
       if additionalProperties schema
       then match obj_get key (own_entries values) with
            | Some v => Some v
            | None => declared_lookup inherited schema values key
            end
       else declared_lookup inherited schema values key) ∧
  (∀ schema o, proto_free schema = true → flat schema →
     is_Some (getNestedData inherited schema (VObj o))) ∧
  getNestedData inherited nested_schema
    (VObj [("a", VStr "x"); ("b", VObj [("c", VNum 5)])])
    = Some [("a", VStr "x"); ("b", VObj [("c", VNum 5)])] ∧
  (∃ r, getNestedData inherited open_schema
          (VObj [("a", VStr "x"); ("z", VNum 9)]) = Some r ∧
        obj_get "a" r = Some (VStr "x") ∧ obj_get "z" r = Some (VNum 9)) ∧
  getNestedData inherited
    (MkSchema (Some "object")
       (Some [("b", MkSchema (Some "object") (Some [("length", num_schema)]) false)])
       false)
    (VObj [("b", VStr "abc")])
    = Some [("b", VObj [("length", VNum 3)])] ∧
  getNestedData inherited
    (MkSchema (Some "object") (Some [("toString", str_schema)]) false) (VObj [])
    = Some (match inherited (VObj []) "toString" with
            | Some builtin => [("toString", builtin)]
            | None => []
            end).
Proof.
  split_and!.
  - intros schema values r key Hfree Hr.
    destruct (additionalProperties schema) eqn:Hadd.
    + by apply (getNestedData_additional inherited schema).
    + by apply (getNestedData_declared inherited schema).
  - intros schema o _. apply getNestedData_flat.
  - reflexivity.
  - eexists. split; [reflexivity|]. by split.
  - reflexivity.
  - cbn. by destruct (inherited _ _).
Qed.

Lemma getNestedData_composes_witness :
  obj_get "b" [("b", VObj [("c", VNum 5); ("d", VNum 6)])] =
    Some (VObj [("c", VNum 5); ("d", VNum 6)]).
Proof.
  exact (proj1 (getNestedData_composes no_inherited) open_nested_schema
           (VObj [("b", VObj [("c", VNum 5); ("d", VNum 6)])])
           [("b", VObj [("c", VNum 5); ("d", VNum 6)])] "b" eq_refl eq_refl).
Defined.

(** * Missing schemas and handles *)

Lemma find_block_None (availableNodes : list Block.t) (block_id : string) :
  (∀ block, block ∈ availableNodes → Block.id block = block_id →
     Block.inputSchema block = None) →
  List.find (λ n, bool_decide (Block.id n = block_id)) availableNodes
    ≫= Block.inputSchema = None.
Proof.
  intros Hnone.
  destruct (List.find _ availableNodes) as [block|] eqn:Hfind; [|done].
  apply find_some in Hfind as [Hin Hid].
  apply bool_decide_eq_true in Hid. apply list_elem_of_In in Hin.
  simpl. by apply Hnone.
Qed.

(** C9.  When no entry of the block catalog with the block identifier of
    the node has an input schema, [prepareNodeInputData] logs the
    condition and returns the empty payload; it does not throw, and the
    node is formatted for the save with that empty payload. *)
Theorem prepareNodeInputData_missing_schema
    (inherited : Value → string → option Value)
    (availableNodes : list Block.t) (edges : list Edge.t) (node : Node.t) :
  (∀ block, block ∈ availableNodes →
     Block.id block = Data.block_id (Node.data node) →
     Block.inputSchema block = None) →
  prepareNodeInputData inherited availableNodes node =
    ([SchemaNotFound (Data.block_id (Node.data node))], Some []) ∧
  ∃ inputNodes outputNodes,
    formatNode inherited availableNodes edges node =
      Some (GraphNode.mk (Node.id node) (Data.block_id (Node.data node)) []
              inputNodes outputNodes (Node.position node)).
Proof.
  intros Hnone. apply find_block_None in Hnone.
  assert (prepareNodeInputData inherited availableNodes node =
            ([SchemaNotFound (Data.block_id (Node.data node))], Some [])) as Hprep.
  { unfold prepareNodeInputData. by rewrite Hnone. }
  split; [done|]. unfold formatNode. rewrite Hprep. simpl. by eauto.
Qed.

Lemma prepareNodeInputData_missing_schema_witness :
  prepareNodeInputData no_inherited [] node_1 =
    ([SchemaNotFound "block-in"], Some []) ∧
  ∃ inputNodes outputNodes,
    formatNode no_inherited [] [edge_1_2] node_1 =
      Some (GraphNode.mk "1" "block-in" [] inputNodes outputNodes (XY.mk 0 0)).
Proof.
  apply (prepareNodeInputData_missing_schema no_inherited [] [edge_1_2] node_1).
  intros block Hin. by apply elem_of_nil in Hin.
Defined.

Lemma getOutputType_no_node (nodes : list Node.t) (id handleId : string) :
  find_node id nodes = None →
  getOutputType nodes id handleId = Returns (Some "unknown").
Proof. unfold getOutputType. by intros ->. Qed.

Lemma getOutputType_no_schema (nodes : list Node.t) (id handleId : string)
    (node : Node.t) :
  find_node id nodes = Some node →
  Data.outputSchema (Node.data node) = None →
  getOutputType nodes id handleId = Returns (Some "unknown").
Proof. unfold getOutputType. by intros -> ->. Qed.

Lemma getOutputType_no_handle (nodes : list Node.t) (id handleId : string)
    (node : Node.t) (outputSchema : Schema) :
  find_node id nodes = Some node →
  Data.outputSchema (Node.data node) = Some outputSchema →
  properties outputSchema ≫= obj_get handleId = None →
  getOutputType nodes id handleId = TypeError.
Proof.
  unfold getOutputType. intros -> -> Hprop.
  destruct (properties outputSchema) as [props|]; [|done].
  simpl in Hprop. by rewrite Hprop.
Qed.

(** C5 (the code departs from it).  On a node whose output schema does
    not declare the handle, [getOutputType] does not report "unknown": it
    reads [.type] of [undefined] and throws.  Here node "1" declares the
    output [out] only and is asked for [result]; [onConnect] on such a
    handle throws with it and adds no edge. *)
Theorem getOutputType_missing_handle_throws :
  getOutputType (State.nodes two_nodes) "1" "result" = TypeError ∧
  onConnect grey (Conn.mk "1" (Some "result") "2" (Some "a")) two_nodes
    = Threw two_nodes.
Proof. split; reflexivity. Qed.

(** * The connection cache *)

Lemma with_data_id (f : Data.t → Data.t) (node : Node.t) :
  Node.id (with_data f node) = Node.id node.
Proof. done. Qed.

(** Whenever [onConnect] completes, both endpoints have received the new
    connection twice: once from [updateNodesOnEdgeChange], once from the
    [setNodes] that follows it. *)
Lemma onConnect_nodes (getTypeColor : option string → string)
    (connection : Conn.t) (s s' : State.t) :
  onConnect getTypeColor connection s = Done s' →
  State.nodes s' =
    (λ node,
       if decide (Node.id node = Conn.source connection ∨
                  Node.id node = Conn.target connection)
       then with_data
              (λ d, with_connections
                 (Data.connections d ++ [connection; connection]) d) node
       else node) <$> State.nodes s.
Proof.
  unfold onConnect.
  destruct (getOutputType _ _ _) as [outputType|]; [|done].
  intros [= <-]. cbn. unfold updateNodesOnEdgeChange.
  rewrite <-list_fmap_compose. apply list_fmap_ext.
  intros i node _. cbn.
  destruct connection as [src sh tgt th]. unfold conn_of_edge. cbn.
  destruct (decide (Node.id node = src ∨ Node.id node = tgt)) as [Hend|Hend].
  - rewrite decide_True by (cbn; tauto).
    unfold with_data, with_connections. cbn.
    by rewrite <-(assoc_L (++)).
  - by rewrite decide_False by tauto.
Qed.

(** [onEdgesDelete] compares the handles of an edge with themselves, so
    deleting one edge between two nodes clears the cached connections of
    every edge between them. *)
Example onEdgesDelete_ignores_handles :
  let other := Conn.mk "1" (Some "out2") "2" (Some "b") in
  let node := with_data (with_connections [conn_1_2; other]) node_1 in
  Data.connections ∘ Node.data <$>
    State.nodes (onEdgesDelete [edge_1_2] (flow [node] [] 3 None))
  = [[]].
Proof. reflexivity. Qed.

(** C1 (the code departs from it).  Starting from two nodes and no edge,
    a state in which cache and edge set agree, one [onConnect] from
    output [out] of node "1" to input [a] of node "2" adds one edge and
    leaves its connection twice in the cache of each endpoint. *)
Theorem onConnect_caches_connection_twice :
  cache_consistent two_nodes ∧
  ∃ s' edge,
    onConnect grey conn_1_2 two_nodes = Done s' ∧
    State.edges s' = [edge] ∧
    conn_of_edge edge = conn_1_2 ∧
    count_conn edge <$> State.nodes s' = [2; 2] ∧
    ¬ cache_consistent s'.
Proof.
  split.
  { intros edge node Hin. by apply elem_of_nil in Hin. }
  eexists _, _. split; [reflexivity|]. cbn [State.edges State.nodes].
  split; [reflexivity|]. split; [reflexivity|]. split; [reflexivity|].
  intros Hcons.
  pose proof (Hcons _ _ (list_elem_of_here _ _) (list_elem_of_here _ _)) as H1.
  vm_compute in H1. discriminate H1.
Qed.

(** * Dragging *)

Lemma onNodesChange_each_dragging (nodes : list Node.t) (change : NodeChange)
    (s : State.t) :
  State.isDragging s = true → ¬ is_removal change →
  onNodesChange_each nodes change s = Done s.
Proof.
  intros Hdrag Hchange. destruct change as [id|id position|id selected]; simpl.
  - by destruct Hchange.
  - by rewrite Hdrag.
  - done.
Qed.

Lemma onNodesChange_forEach_dragging (nodes : list Node.t)
    (changes : list NodeChange) (s : State.t) :
  State.isDragging s = true → Forall (λ c, ¬ is_removal c) changes →
  onNodesChange_forEach nodes changes s = Done s.
Proof.
  intros Hdrag Hchanges.
  induction Hchanges as [|change changes Hchange _ IH]; [done|].
  simpl. by rewrite onNodesChange_each_dragging.
Qed.

(** While a node is dragged, the changes React Flow reports move the
    nodes and leave the refs and the history as they are. *)
Lemma drag_moves_dragging (moves : list (list NodeChange)) (s : State.t) :
  State.isDragging s = true →
  Forall (Forall (λ c, ¬ is_removal c)) moves →
  ∃ s', drag_moves moves s = Done s' ∧
    State.isDragging s' = true ∧
    State.initialPositionRef s' = State.initialPositionRef s ∧
    State.pushed s' = State.pushed s.
Proof.
  intros Hdrag Hmoves. revert s Hdrag.
  induction Hmoves as [|changes moves Hchanges _ IH]; intros s Hdrag.
  { by exists s. }
  simpl. unfold onNodesChange.
  rewrite onNodesChange_forEach_dragging by done.
  destruct (IH (set_nodes (applyNodeChanges changes (State.nodes s)) s))
    as (s' & -> & ? & ? & ?); [done|].
  by exists s'.
Qed.



(** The test on the coordinates (30.000000000000004, 40): the squares
    add up to 2500 when rounded, and the square root of that is 50. *)
Example distanceMoved_rounded :
  Double.distanceMoved Double.origin Double.just_beyond
    = Double.MINIMUM_MOVE_BEFORE_LOG ∧
  Double.movedEnough Double.origin Double.just_beyond = false ∧
  Double.pushed Double.origin Double.just_beyond = 0.
Proof. split_and!; reflexivity. Qed.


(** The comparison of squares made in [movedEnough] is the comparison of
    the source: the Euclidean distance, a square root over the reals,
    exceeds the threshold. *)
Lemma movedEnough_sqrt (oldPosition newPosition : XY.t) :
  movedEnough oldPosition newPosition = true ↔
  (IZR MINIMUM_MOVE_BEFORE_LOG < sqrt (IZR (squaredDistance oldPosition newPosition)))%R.
Proof.
  unfold movedEnough, MINIMUM_MOVE_BEFORE_LOG. rewrite bool_decide_eq_true.
  generalize (squaredDistance oldPosition newPosition) as d. intros d.
  assert (sqrt (IZR (50 ^ 2)) = IZR 50) as H50.
  { replace (IZR (50 ^ 2)) with (IZR 50 * IZR 50)%R
      by (rewrite <-mult_IZR; f_equal).
    apply sqrt_square. apply IZR_le. lia. }
  split.
  - intros Hlt. rewrite <-H50. apply sqrt_lt_1_alt.
    split; [apply IZR_le; lia|by apply IZR_lt].
  - intros Hlt. destruct (Z_lt_le_dec (50 ^ 2) d) as [|Hle]; [done|].
    apply IZR_le, sqrt_le_1_alt in Hle. rewrite H50 in Hle. lra.
Qed.

(** * Copy and paste *)


Lemma initial_ids_below_counter : ids_below_counter initial.
Proof. intros node k Hin. by apply elem_of_nil in Hin. Qed.

Lemma addNode_ids_below_counter (blockId nodeType : string) (rx ry : Z)
    (s : State.t) :
  ids_below_counter s → ids_below_counter (addNode blockId nodeType rx ry s).
Proof.
  intros Hinv. unfold addNode. destruct (List.find _ _); [|done].
  intros node k. cbn. intros [Hold| ->%list_elem_of_singleton]%elem_of_app Hk.
  - apply Hinv; [done|lia].
  - cbn. intros Heq%(inj pretty). lia.
Qed.

Lemma pasted_nodes_lookup (nodeId : N) (copiedNodes : list Node.t) (i : nat) :
  pasted_nodes nodeId copiedNodes !! i =
    (λ node,
       Node.mk (pretty (nodeId + N.of_nat i)%N)
         (XY.mk (XY.x (Node.position node) + 20) (XY.y (Node.position node) + 20))
         (Node.selected node)
         (with_output_data None (with_status None (Node.data node))))
      <$> copiedNodes !! i.
Proof. unfold pasted_nodes. by rewrite list_lookup_imap. Qed.

Lemma pasted_nodes_id (nodeId : N) (copiedNodes : list Node.t) (new : Node.t) :
  new ∈ pasted_nodes nodeId copiedNodes →
  ∃ i src, copiedNodes !! i = Some src ∧
    Node.id new = pretty (nodeId + N.of_nat i)%N ∧
    Node.selected new = Node.selected src.
Proof.
  intros [i Hi]%list_elem_of_lookup. rewrite pasted_nodes_lookup in Hi.
  destruct (copiedNodes !! i) as [src|] eqn:Hsrc; [|done].
  simplify_eq/=. by exists i, src.
Qed.

Lemma pasted_nodes_NoDup (nodeId : N) (copiedNodes : list Node.t) :
  NoDup (Node.id <$> pasted_nodes nodeId copiedNodes).
Proof.
  apply NoDup_alt. intros i j id.
  rewrite !list_lookup_fmap, !pasted_nodes_lookup.
  destruct (copiedNodes !! i), (copiedNodes !! j); try done.
  cbn. intros [= <-] [= Heq%(inj pretty)]. lia.
Qed.

Lemma paste_ids_below_counter (now : nat → Z) (s : State.t) :
  ids_below_counter s → ids_below_counter (paste now s).
Proof.
  intros Hinv. unfold paste.
  destruct (State.copiedNodes s) as [|c cs] eqn:Hcopied; [done|].
  intros node k. cbn [State.nodes State.nodeId set_edges set_nodeId set_nodes].
  intros [Hold|Hnew]%elem_of_app Hk.
  - apply list_elem_of_fmap in Hold as (old & -> & Hold).
    cbn. apply Hinv; [done|lia].
  - apply pasted_nodes_id in Hnew as (i & src & Hsrc & -> & _).
    apply lookup_lt_Some in Hsrc.
    intros Heq%(inj pretty). lia.
Qed.

(** The editor starts empty, loads a graph whose nodes the service named
    "1" and "2", and has them selected, copied and pasted.  [loadGraph]
    leaves the counter at 1, so the pasted nodes are named "1" and "2"
    again. *)
Example paste_after_load :
  State.nodeId loaded_and_copied = 1%N ∧
  Node.id <$> State.nodes loaded_and_copied = ["1"; "2"] ∧
  Node.id <$> State.copiedNodes loaded_and_copied = ["1"; "2"] ∧
  Node.id <$> State.nodes (paste clock loaded_and_copied) = ["1"; "2"; "1"; "2"].
Proof. split_and!; reflexivity. Qed.



Lemma two_nodes_ids_below_counter : ids_below_counter (copy two_nodes).
Proof.
  intros node k Hin Hk. cbn in Hin, Hk.
  apply elem_of_cons in Hin as [->|Hin];
    [|apply list_elem_of_singleton in Hin as ->].
  - change (Node.id node_1) with (pretty 1%N). intros Heq%(inj pretty). lia.
  - change (Node.id node_2) with (pretty 2%N). intros Heq%(inj pretty). lia.
Defined.


(** An edge keeps its end points through [paste] unless the title of a
    pasted node happens to be the identifier at one of them. *)
Lemma pasted_edges_ends (now : nat → Z) (newNodes : list Node.t)
    (copiedEdges : list Edge.t) :
  (∀ edge new, edge ∈ copiedEdges → new ∈ newNodes →
     Data.title (Node.data new) ≠ Edge.source edge ∧
     Data.title (Node.data new) ≠ Edge.target edge) →
  ends <$> pasted_edges now newNodes copiedEdges = ends <$> copiedEdges.
Proof.
  intros Htitle. unfold pasted_edges.
  rewrite fmap_imap, <-(imap_const ends). apply imap_ext.
  intros i edge Hedge%list_elem_of_lookup_2. cbn.
  assert (∀ id, (∀ new, new ∈ newNodes → Data.title (Node.data new) ≠ id) →
    List.find (λ n, bool_decide (Data.title (Node.data n) = id)) newNodes = None)
    as Hfind.
  { intros id Hid. destruct (List.find _ newNodes) as [new|] eqn:Hnew; [|done].
    apply find_some in Hnew as [Hin%list_elem_of_In Heq%bool_decide_eq_true].
    by destruct (Hid new). }
  unfold ends. cbn.
  rewrite !Hfind; [done|intros new Hnew; by apply (Htitle edge new)..].
Qed.

(** C7 (the code departs from it).  Nodes "1" and "2", titled "Input 1"
    and "Print 2", and the edge from "1" to "2" are selected, copied and
    pasted.  The pasted nodes are "3" and "4", but the pasted edge joins
    "1" and "2" again: the titles of the pasted nodes are compared with
    the identifiers at the ends of the edge, no title is an identifier,
    and the fallback keeps the old ends. *)
Theorem paste_edge_keeps_old_ends :
  let s := paste clock (copy wired) in
  Node.id <$> State.nodes s = ["1"; "2"; "3"; "4"] ∧
  Data.title ∘ Node.data <$> State.nodes s =
    ["Input 1"; "Print 2"; "Input 1"; "Print 2"] ∧
  ends <$> State.edges s = [("1", "2"); ("1", "2")].
Proof. cbv zeta. split_and!; reflexivity. Qed.

(** * Keys of nodes

    The key written by the template literal determines the block
    identifier and the position: the numerals are free of [_], so the key
    is read back from its last two separators. *)

Lemma append_cons (c : ascii) (a b : string) :
  String c a +:+ b = String c (a +:+ b).
Proof. done. Qed.

Lemma append_assoc (a b c : string) : (a +:+ b) +:+ c = a +:+ b +:+ c.
Proof.
  induction a as [|ch a IH]; [done|]. by rewrite !append_cons, IH.
Qed.

Lemma has_underscore_app (a b : string) :
  has_underscore (a +:+ b) = has_underscore a || has_underscore b.
Proof.
  induction a as [|c a IH]; [done|].
  rewrite append_cons. cbn. by rewrite IH, orb_assoc.
Qed.

Lemma pretty_N_go_no_underscore (x : N) (s : string) :
  has_underscore s = false → has_underscore (pretty_N_go x s) = false.
Proof.
  revert s. induction (N.lt_wf_0 x) as [x _ IH]; intros s Hs.
  assert (x = 0 ∨ 0 < x)%N as [->|Hpos] by lia.
  - by rewrite pretty_N_go_0.
  - rewrite pretty_N_go_step by done. apply IH.
    { by apply N.div_lt. }
    cbn. rewrite Hs, orb_false_r. apply bool_decide_eq_false.
    unfold pretty_N_char. by repeat case_match.
Qed.

Lemma pretty_Z_no_underscore (z : Z) : has_underscore (pretty z) = false.
Proof.
  assert (∀ p : positive, has_underscore (pretty p) = false) as Hpos.
  { intros p. unfold pretty, pretty_positive, pretty, pretty_N.
    case_decide; [done|]. by apply pretty_N_go_no_underscore. }
  destruct z as [|p|p]; [done|apply Hpos|].
  change (pretty (Z.neg p)) with ("-" +:+ pretty p).
  rewrite has_underscore_app. by rewrite Hpos.
Qed.

Lemma split_at_last_underscore (a b p q : string) :
  has_underscore p = false → has_underscore q = false →
  a +:+ "_" +:+ p = b +:+ "_" +:+ q → a = b ∧ p = q.
Proof.
  intros Hp Hq. revert b.
  induction a as [|c a IH]; intros [|d b] Heq;
    rewrite ?append_cons in Heq; change ("" +:+ ?s) with s in Heq;
    rewrite ?append_cons in Heq; change ("" +:+ ?s) with s in Heq.
  - by simplify_eq.
  - simplify_eq. rewrite has_underscore_app in Hp. cbn in Hp.
    by rewrite orb_true_r in Hp.
  - simplify_eq. rewrite has_underscore_app in Hq. cbn in Hq.
    by rewrite orb_true_r in Hq.
  - simplify_eq. destruct (IH b) as [-> ->]; done.
Qed.

Lemma node_key_inj (block_id block_id' : string) (position position' : XY.t) :
  node_key block_id position = node_key block_id' position' →
  block_id = block_id' ∧ position = position'.
Proof.
  unfold node_key. intros Heq.
  rewrite <-!(append_assoc _ "_" (pretty (XY.x _) +:+ _)) in Heq.
  rewrite <-!(append_assoc _ (pretty (XY.x _))) in Heq.
  apply split_at_last_underscore in Heq as [Heq Hy];
    [|apply pretty_Z_no_underscore..].
  rewrite !append_assoc in Heq.
  apply split_at_last_underscore in Heq as [-> Hx];
    [|apply pretty_Z_no_underscore..].
  apply (inj pretty) in Hx, Hy.
  split; [done|]. destruct position, position'. cbn in *. congruence.
Qed.

(** * Saving *)

Lemma obj_get_None {A : Type} (k : string) (o : list (string * A)) :
  obj_get k o = None ↔ Forall (λ kv, kv.1 ≠ k) o.
Proof.
  induction o as [|[k1 v1] o IH]; simpl.
  - split; [constructor|done].
  - rewrite Forall_cons. cbn. rewrite <-IH.
    destruct (obj_get k o); [by intuition|].
    case_decide; intuition congruence.
Qed.

Lemma record_keys_lookup (nodes : list Node.t) (m : gmap string string)
    (k : string) :
  record_keys nodes m !! k =
    match obj_get k (key_entries nodes) with
    | Some id => Some id
    | None => m !! k
    end.
Proof.
  unfold record_keys, key_entries. revert m.
  induction nodes as [|node nodes IH]; intros m; [done|].
  cbn [foldl fmap list_fmap obj_get]. rewrite IH.
  destruct (obj_get k _); [done|].
  rewrite lookup_insert. by repeat case_decide.
Qed.

Lemma blockIdToNodeIdMap_lookup (nodes : list Node.t) (k : string) :
  blockIdToNodeIdMap nodes !! k = obj_get k (key_entries nodes).
Proof.
  unfold blockIdToNodeIdMap.
  assert (∀ (rounds : list Node.t) (m : gmap string string),
    (∀ k, m !! k = None ∨ m !! k = obj_get k (key_entries nodes)) →
    ∀ k, foldl (λ acc _, record_keys nodes acc) m rounds !! k =
      match rounds with [] => m !! k | _ => obj_get k (key_entries nodes) end)
    as Hrounds.
  { induction rounds as [|round rounds IH]; intros m Hm k'; [done|].
    cbn [foldl].
    assert (∀ k, record_keys nodes m !! k = obj_get k (key_entries nodes)) as Hm'.
    { intros k''. rewrite record_keys_lookup.
      destruct (obj_get k'' (key_entries nodes)) eqn:Hk; [done|].
      destruct (Hm k''); congruence. }
    rewrite IH by (intros; right; apply Hm').
    destruct rounds; [apply Hm'|done]. }
  rewrite Hrounds by (intros; left; apply lookup_empty).
  by destruct nodes.
Qed.

Lemma key_entries_last (nodes : list Node.t) (k id : string) :
  obj_get k (key_entries nodes) = Some id ↔
  ∃ node, last_with_key nodes node ∧ key_of_node node = k ∧ Node.id node = id.
Proof.
  split.
  - induction nodes as [|first nodes IH]; [done|].
    cbn [key_entries fmap list_fmap obj_get].
    fold (key_entries nodes).
    destruct (obj_get k (key_entries nodes)) eqn:Hrest.
    + intros [= ->]. destruct IH as (node & (before & after & -> & Hafter) & ? & ?);
        [done|].
      exists node. split; [|done]. by exists (first :: before), after.
    + case_decide as Hfirst; [|done]. intros [= <-].
      exists first. split; [|done]. exists [], nodes. split; [done|].
      apply obj_get_None in Hrest. unfold key_entries in Hrest.
      rewrite Forall_fmap in Hrest. rewrite Hfirst.
      eapply Forall_impl; [exact Hrest|]. by intros other.
  - intros (node & (before & after & -> & Hafter) & <- & <-).
    unfold key_entries. rewrite fmap_app, fmap_cons, obj_get_app.
    cbn [obj_get].
    assert (obj_get (key_of_node node)
              ((λ node, (key_of_node node, Node.id node)) <$> after) = None) as ->.
    { apply obj_get_None. rewrite Forall_fmap.
      eapply Forall_impl; [exact Hafter|]. by intros other. }
    by rewrite decide_True.
Qed.

Lemma find_node_Some (id : string) (nodes : list Node.t) (node : Node.t) :
  find_node id nodes = Some node → node ∈ nodes ∧ Node.id node = id.
Proof.
  intros [Hin Hid]%find_some. split; [by apply list_elem_of_In|].
  by apply bool_decide_eq_true in Hid.
Qed.

Lemma node_id_inj (nodes : list Node.t) (a b : Node.t) :
  NoDup (Node.id <$> nodes) → a ∈ nodes → b ∈ nodes →
  Node.id a = Node.id b → a = b.
Proof.
  intros Hnd [i Ha]%list_elem_of_lookup [j Hb]%list_elem_of_lookup Hid.
  assert (i = j) as ->; [|congruence].
  eapply NoDup_lookup; [exact Hnd|..]; rewrite list_lookup_fmap.
  - by rewrite Ha.
  - by rewrite Hb, Hid.
Qed.

Lemma find_node_NoDup (nodes : list Node.t) (node : Node.t) :
  NoDup (Node.id <$> nodes) → node ∈ nodes →
  find_node (Node.id node) nodes = Some node.
Proof.
  intros Hnd Hin. unfold find_node.
  destruct (List.find _ nodes) as [found|] eqn:Hfind.
  - apply find_node_Some in Hfind as [Hfound Hid].
    f_equal. by eapply node_id_inj.
  - apply list_elem_of_In in Hin.
    eapply find_none in Hfind; [|exact Hin].
    cbn in Hfind. by rewrite bool_decide_eq_false in Hfind.
Qed.

Lemma last_with_key_elem (nodes : list Node.t) (node : Node.t) :
  last_with_key nodes node → node ∈ nodes.
Proof. intros (before & after & -> & _). set_solver. Qed.

(** The nodes of [updatedNodes]: one for each node of the response whose
    key is recorded, built from the last node that carries the key. *)
Lemma updatedNodes_elem (nodes : list Node.t) (backendNodes : list GraphNode.t)
    (new : Node.t) :
  NoDup (Node.id <$> nodes) →
  new ∈ updatedNodes nodes (blockIdToNodeIdMap nodes) backendNodes ↔
  ∃ backendNode node,
    backendNode ∈ backendNodes ∧ last_with_key nodes node ∧
    key_of_backendNode backendNode = key_of_node node ∧
    new = remapped backendNode node.
Proof.
  intros Hnd. unfold updatedNodes. rewrite list_elem_of_omap. split.
  - intros (backendNode & Hin & Hnew).
    rewrite blockIdToNodeIdMap_lookup in Hnew.
    destruct (obj_get _ _) as [id|] eqn:Hkey; [|done]. cbn in Hnew.
    destruct (find_node id nodes) as [found|] eqn:Hfound; [|done].
    cbn in Hnew. simplify_eq.
    apply key_entries_last in Hkey as (node & Hlast & Hk & Hid).
    apply find_node_Some in Hfound as [Hfound Hid'].
    assert (found = node) as ->.
    { eapply node_id_inj; eauto using last_with_key_elem. congruence. }
    by exists backendNode, node.
  - intros (backendNode & node & Hin & Hlast & Hkey & ->).
    exists backendNode. split; [done|].
    rewrite blockIdToNodeIdMap_lookup.
    rewrite (proj2 (key_entries_last nodes _ (Node.id node))) by eauto.
    cbn. rewrite find_node_NoDup by eauto using last_with_key_elem. done.
Qed.

Lemma saveAgent_saved_nodes (inherited : Value → string → option Value)
    (deepEquals : Payload.t → Graph.t → bool)
    (api : Api.t) (asTemplate : bool) (s : State.t) (newSavedAgent : Graph.t) :
  saved_as (saveAgent inherited deepEquals api asTemplate s) newSavedAgent →
  State.nodes (Saved.state (saveAgent inherited deepEquals api asTemplate s)) =
    updatedNodes (State.nodes s) (blockIdToNodeIdMap (State.nodes s))
      (Graph.nodes newSavedAgent) ∧
  ∃ call, Saved.calls (saveAgent inherited deepEquals api asTemplate s) = [call] ∧
    perform api call = Some newSavedAgent.
Proof.
  unfold saved_as, saveAgent.
  destruct (build_payload inherited s) as [payload|]; [|by intros [? _]].
  destruct (match State.savedAgent s with Some _ => _ | None => _ end)
    as [call|]; [|by intros [? _]].
  destruct (perform api call) as [g|] eqn:Hcall; [|by intros [? _]].
  cbn. intros [_ [= ->]]. split; [done|]. by exists call.
Qed.

(** C2 (the code departs from it).  When the assembled payload equals
    the saved agent, [saveAgent] makes no remote call, as the claim says,
    but it settles with a bare [return]: the caller receives [undefined],
    not the identifier of the saved agent. *)
Theorem saveAgent_skip_returns_nothing (inherited : Value → string → option Value)
    (deepEquals : Payload.t → Graph.t → bool)
    (api : Api.t) (asTemplate : bool) (s : State.t) (payload : Payload.t)
    (savedAgent : Graph.t) :
  build_payload inherited s = Some payload →
  State.savedAgent s = Some savedAgent →
  deepEquals payload savedAgent = true →
  Saved.calls (saveAgent inherited deepEquals api asTemplate s) = [] ∧
  Saved.settled (saveAgent inherited deepEquals api asTemplate s) = Resolved None ∧
  State.savedAgent (Saved.state (saveAgent inherited deepEquals api asTemplate s)) =
    Some savedAgent.
Proof.
  unfold saveAgent. intros Hpayload Hsaved Hequal.
  by rewrite Hpayload, Hsaved, Hequal.
Qed.

(** Two saves in a row against a service that keeps the identifiers it
    is sent: the first creates the graph and returns its identifier, the
    second makes no call and returns nothing. *)
Lemma saveAgent_skip_returns_nothing_witness :
  ∃ first payload,
    first = saveAgent no_inherited deepEquals_graph keep_api false two_nodes ∧
    Saved.calls first = [CreateGraph payload] ∧
    Saved.settled first = Resolved (Some "graph-7") ∧
    Saved.calls (saveAgent no_inherited deepEquals_graph keep_api false (Saved.state first)) = [] ∧
    Saved.settled (saveAgent no_inherited deepEquals_graph keep_api false (Saved.state first))
      = Resolved None.
Proof.
  eexists _, _. split; [reflexivity|]. split; [reflexivity|].
  split; [reflexivity|].
  edestruct (saveAgent_skip_returns_nothing no_inherited deepEquals_graph
               keep_api false
               (Saved.state (saveAgent no_inherited deepEquals_graph keep_api false two_nodes)))
    as (Hcalls & Hsettled & _); [reflexivity..|].
  split; [exact Hcalls|exact Hsettled].
Defined.

Lemma unique_key_last (nodes : list Node.t) (node : Node.t) :
  node ∈ nodes →
  (∀ other, other ∈ nodes → key_of_node other = key_of_node node → other = node) →
  last_with_key nodes node.
Proof.
  induction nodes as [|first nodes IH]; intros Hin Hunique.
  { by apply elem_of_nil in Hin. }
  destruct (decide (Exists (λ other, key_of_node other = key_of_node node) nodes))
    as [Hlater|Hlater].
  - apply Exists_exists in Hlater as (other & Hother & Hkey).
    assert (other = node) as ->
      by (apply Hunique; [by apply list_elem_of_further|done]).
    destruct IH as (before & after & -> & Hafter);
      [done|intros o Ho; apply Hunique; by apply list_elem_of_further|].
    by exists (first :: before), after.
  - apply not_Exists_Forall in Hlater; [|intros; apply _].
    apply elem_of_cons in Hin as [->|Hin].
    + by exists [], nodes.
    + by destruct (proj1 (Forall_forall _ _) Hlater node Hin).
Qed.

(** C3, read as the specification words the remap, fails: the identifier
    of a node is not replaced.  The editor holds node "1" alone and the
    service answers the create with the node named "srv-1", whose key is
    the key of node "1".  After the save no node is named "srv-1"; the
    node is still named "1".  This is so whatever the prototypes of the
    runtime hold. *)
Lemma identifier_not_replaced : ¬ ∃ inherited, identifier_replaced inherited.
Proof.
  intros [inherited Hclaim].
  destruct (Hclaim deepEquals_graph echo_api false one_node renamed_one node_1
              (GraphNode.mk "srv-1" "block-in" [("a", VStr "x")] [] [] (XY.mk 0 0)))
    as (new & Hin & Hid).
  - split; reflexivity.
  - apply (bool_decide_unpack _). vm_compute. exact I.
  - apply list_elem_of_here.
  - intros other Hother _. by apply list_elem_of_singleton in Hother.
  - apply list_elem_of_here.
  - reflexivity.
  - vm_compute in Hin. apply list_elem_of_singleton in Hin as ->.
    vm_compute in Hid. discriminate Hid.
Qed.

(** C3 (amended).  After a save that went through, a node whose key
    (block identifier, x, y) no other node shares is found again for
    every node of the response with that key: the node is kept under its
    own, locally generated identifier, placed where the response says,
    and carries the identifier the service assigned in [backend_id].
    Every node left with its identifier is of that form. *)
Theorem saveAgent_remaps (inherited : Value → string → option Value)
    (deepEquals : Payload.t → Graph.t → bool)
    (api : Api.t) (asTemplate : bool) (s : State.t) (newSavedAgent : Graph.t)
    (node : Node.t) (backendNode : GraphNode.t) :
  saved_as (saveAgent inherited deepEquals api asTemplate s) newSavedAgent →
  NoDup (Node.id <$> State.nodes s) →
  node ∈ State.nodes s →
  (∀ other, other ∈ State.nodes s →
     key_of_node other = key_of_node node → other = node) →
  backendNode ∈ Graph.nodes newSavedAgent →
  key_of_backendNode backendNode = key_of_node node →
  (∃ new, new ∈ State.nodes
      (Saved.state (saveAgent inherited deepEquals api asTemplate s)) ∧
     Node.id new = Node.id node ∧
     Data.backend_id (Node.data new) = Some (GraphNode.id backendNode) ∧
     Node.position new = GraphNode.position backendNode ∧
     new = remapped backendNode node) ∧
  (∀ new, new ∈ State.nodes
      (Saved.state (saveAgent inherited deepEquals api asTemplate s)) →
     Node.id new = Node.id node →
     ∃ b, b ∈ Graph.nodes newSavedAgent ∧
       key_of_backendNode b = key_of_node node ∧ new = remapped b node).
Proof.
  intros [Hnodes _]%saveAgent_saved_nodes Hnd Hin Hunique Hback Hkey.
  rewrite Hnodes. split.
  - exists (remapped backendNode node). split_and!; try done.
    apply updatedNodes_elem; [done|].
    exists backendNode, node. eauto using unique_key_last.
  - intros new (b & found & Hb & Hlast & Hk & ->)%updatedNodes_elem Hid; [|done].
    assert (found = node) as ->.
    { eapply node_id_inj; eauto using last_with_key_elem. }
    by exists b.
Qed.

Lemma two_nodes_NoDup : NoDup (Node.id <$> State.nodes two_nodes).
Proof. apply (bool_decide_unpack _). vm_compute. exact I. Defined.

Lemma saveAgent_remaps_witness :
  ∃ new,
    new ∈ State.nodes
            (Saved.state (saveAgent no_inherited deepEquals_graph echo_api false two_nodes)) ∧
    Node.id new = "1" ∧
    Data.backend_id (Node.data new) = Some "srv-1".
Proof.
  destruct (saveAgent_remaps no_inherited deepEquals_graph echo_api false two_nodes
              renamed_graph node_1
              (GraphNode.mk "srv-1" "block-in" [("a", VStr "x")] [] [] (XY.mk 0 0)))
    as [(new & Hin & Hid & Hbackend & _) _].
  - split; reflexivity.
  - exact two_nodes_NoDup.
  - apply list_elem_of_here.
  - intros other Hother Hkey. cbn in Hother.
    apply elem_of_cons in Hother as [->|Hother]; [reflexivity|].
    apply list_elem_of_singleton in Hother as ->.
    vm_compute in Hkey. discriminate Hkey.
  - apply list_elem_of_here.
  - reflexivity.
  - exists new. split; [exact Hin|]. split; [exact Hid|exact Hbackend].
Defined.

(** C10, as it is worded, fails when two nodes share a key.  The nodes
    "1" and "2" are of one block and stand at one place, and the service
    answers with one node of that key.  The key is recorded for "2", the
    later of the two, so node "1" is dropped although its key is the key
    of a node of the response.  This is so whatever the prototypes of the
    runtime hold. *)
Lemma twin_dropped : ¬ ∃ inherited, kept_iff_key_matches inherited.
Proof.
  intros [inherited Hclaim].
  assert (saved_as (saveAgent inherited deepEquals_graph first_api false twins)
            first_graph) as Hsaved.
  { destruct (inherited (VObj []) "a") as [v|] eqn:Ha;
      vm_compute; rewrite Ha; split; reflexivity. }
  destruct (Hclaim deepEquals_graph first_api false twins first_graph node_1)
    as [_ Hkept].
  - exact Hsaved.
  - apply (bool_decide_unpack _). vm_compute. exact I.
  - apply list_elem_of_here.
  - destruct Hkept as (new & Hin & Hid).
    + eexists. split; [apply list_elem_of_here|reflexivity].
    + rewrite (proj1 (saveAgent_saved_nodes _ _ _ _ _ _ Hsaved)) in Hin.
      vm_compute in Hin. apply list_elem_of_singleton in Hin as ->.
      vm_compute in Hid. discriminate Hid.
Qed.

(** C10 (amended).  After a save that went through, with node
    identifiers that are unique, a prior node is still in the graph
    exactly when it is the last node carrying its key (block identifier,
    x, y) and that key is the key of some node of the response; any other
    node is removed.  Every node of the graph afterwards is a prior
    node, under its prior identifier. *)
Theorem saveAgent_keeps_last_of_key (inherited : Value → string → option Value)
    (deepEquals : Payload.t → Graph.t → bool)
    (api : Api.t) (asTemplate : bool) (s : State.t) (newSavedAgent : Graph.t)
    (node : Node.t) :
  saved_as (saveAgent inherited deepEquals api asTemplate s) newSavedAgent →
  NoDup (Node.id <$> State.nodes s) →
  node ∈ State.nodes s →
  ((∃ new, new ∈ State.nodes
      (Saved.state (saveAgent inherited deepEquals api asTemplate s)) ∧
      Node.id new = Node.id node) ↔
   (last_with_key (State.nodes s) node ∧
    ∃ backendNode, backendNode ∈ Graph.nodes newSavedAgent ∧
      key_of_backendNode backendNode = key_of_node node)) ∧
  (∀ new, new ∈ State.nodes
      (Saved.state (saveAgent inherited deepEquals api asTemplate s)) →
     ∃ old, old ∈ State.nodes s ∧ Node.id old = Node.id new).
Proof.
  intros [Hnodes _]%saveAgent_saved_nodes Hnd Hin. rewrite Hnodes.
  split; [split|].
  - intros (new & (b & found & Hb & Hlast & Hk & ->)%updatedNodes_elem & Hid);
      [|done].
    assert (found = node) as ->.
    { eapply node_id_inj; eauto using last_with_key_elem. }
    eauto.
  - intros (Hlast & b & Hb & Hk). exists (remapped b node). split; [|done].
    apply updatedNodes_elem; [done|]. by exists b, node.
  - intros new (b & found & Hb & Hlast & Hk & ->)%updatedNodes_elem; [|done].
    exists found. eauto using last_with_key_elem.
Qed.

Lemma saveAgent_keeps_last_of_key_witness :
  (∃ new,
     new ∈ State.nodes
             (Saved.state (saveAgent no_inherited deepEquals_graph first_api false twins)) ∧
     Node.id new = Node.id node_1_twin) ↔
  (last_with_key (State.nodes twins) node_1_twin ∧
   ∃ backendNode, backendNode ∈ Graph.nodes first_graph ∧
     key_of_backendNode backendNode = key_of_node node_1_twin).
Proof.
  apply (saveAgent_keeps_last_of_key no_inherited deepEquals_graph first_api false twins
           first_graph node_1_twin).
  - split; reflexivity.
  - apply (bool_decide_unpack _). vm_compute. exact I.
  - apply list_elem_of_further, list_elem_of_here.
Defined.

(** Against a service that names the nodes anew, the nodes keep their
    local identifiers, the next payload differs from the saved agent in
    them, and a second save in a row calls the service again. *)
Example second_save_after_renaming :
  let first := saveAgent no_inherited deepEquals_graph echo_api false two_nodes in
  State.savedAgent (Saved.state first) = Some renamed_graph ∧
  Node.id <$> State.nodes (Saved.state first) = ["1"; "2"] ∧
  ∃ payload,
    Saved.calls (saveAgent no_inherited deepEquals_graph echo_api false (Saved.state first))
      = [UpdateGraph "graph-7" payload].
Proof. cbv zeta. split_and!; [reflexivity..|]. eexists. reflexivity. Qed.

(** * More on the connection cache *)

Lemma conn_matches_eq (edge : Edge.t) (conn : Conn.t) :
  conn_matches edge conn ↔ conn = conn_of_edge edge.
Proof.
  unfold conn_matches, conn_of_edge. destruct conn as [src sh tgt th]. cbn.
  split; [by intros (-> & -> & -> & ->)|by intros [= -> -> -> ->]].
Qed.

Lemma with_connections_same (node : Node.t) :
  with_data (with_connections (Data.connections (Node.data node))) node = node.
Proof. by destruct node as [id pos sel []]. Qed.

Lemma filter_none_matching (edge : Edge.t) (cs : list Conn.t) :
  length (filter (conn_matches edge) cs) = 0 →
  filter (λ conn, ¬ conn_matches edge conn) cs = cs.
Proof.
  induction cs as [|c cs IH]; [done|].
  rewrite !filter_cons. destruct (decide (conn_matches edge c)); [done|].
  intros Hlen. rewrite decide_True by done. f_equal. by apply IH.
Qed.

Lemma filter_all_matching (edge : Edge.t) (cs : list Conn.t) :
  length (filter (conn_matches edge)
            (filter (λ conn, ¬ conn_matches edge conn) cs)) = 0.
Proof.
  induction cs as [|c cs IH]; [done|].
  rewrite (filter_cons (λ conn, ¬ conn_matches edge conn)).
  destruct (decide (¬ conn_matches edge c)); [|done].
  by rewrite filter_cons_False.
Qed.

(** X1.  Taking a connection out again: when no end point of the edge has
    its connection cached, adding the edge to the cache and removing it
    gives back the nodes as they were. *)
Theorem updateNodesOnEdgeChange_add_remove (edge : Edge.t) (nds : list Node.t) :
  (∀ node, node ∈ nds →
     Node.id node = Edge.source edge ∨ Node.id node = Edge.target edge →
     count_conn edge node = 0) →
  updateNodesOnEdgeChange edge remove (updateNodesOnEdgeChange edge add nds) = nds.
Proof.
  intros Hfresh. unfold updateNodesOnEdgeChange.
  rewrite <-list_fmap_compose.
  trans (fmap (M:=list) (λ n : Node.t, n) nds); [|apply list_fmap_id].
  apply list_fmap_ext. intros i node Hnode%list_elem_of_lookup_2. cbn.
  destruct (decide (Node.id node = Edge.source edge ∨
                    Node.id node = Edge.target edge)) as [Hend|Hend].
  - rewrite with_data_id, decide_True by done.
    unfold with_data at 1. cbn.
    rewrite filter_app, (filter_cons_False _ (conn_of_edge edge))
      by (intros Hno; apply Hno; by apply conn_matches_eq).
    rewrite filter_nil, app_nil_r, filter_none_matching by (by apply Hfresh).
    by destruct node as [id pos sel []].
  - by rewrite decide_False.
Qed.

Lemma updateNodesOnEdgeChange_add_remove_witness :
  updateNodesOnEdgeChange edge_1_2 remove
    (updateNodesOnEdgeChange edge_1_2 add [node_1; node_2]) = [node_1; node_2].
Proof.
  apply (updateNodesOnEdgeChange_add_remove edge_1_2 [node_1; node_2]).
  intros node Hnode _.
  apply elem_of_cons in Hnode as [->|Hnode]; [reflexivity|].
  apply list_elem_of_singleton in Hnode as ->. reflexivity.
Defined.

(** X2.  After the removal of an edge both of whose handles are strings,
    no end point of the edge holds its connection, whatever the cache
    held and however often the connection was in it, and the nodes that
    are not end points are as before. *)
Theorem updateNodesOnEdgeChange_remove_clears (edge : Edge.t)
    (nds : list Node.t) (i : nat) (node : Node.t) :
  defined_handles edge →
  nds !! i = Some node →
  ∃ node', updateNodesOnEdgeChange edge remove nds !! i = Some node' ∧
    Node.id node' = Node.id node ∧
    if decide (Node.id node = Edge.source edge ∨ Node.id node = Edge.target edge)
    then count_conn edge node' = 0
    else node' = node.
Proof.
  intros _ Hnode. unfold updateNodesOnEdgeChange.
  rewrite list_lookup_fmap, Hnode. cbn. eexists. split; [done|].
  destruct (decide (Node.id node = Edge.source edge ∨
                    Node.id node = Edge.target edge)); [|done].
  split; [done|]. unfold count_conn. cbn. apply filter_all_matching.
Qed.

Lemma updateNodesOnEdgeChange_remove_clears_witness :
  ∃ node',
    updateNodesOnEdgeChange edge_1_2 remove
      [with_data (with_connections [conn_1_2; conn_1_2]) node_1] !! 0
      = Some node' ∧
    Node.id node' = "1" ∧ count_conn edge_1_2 node' = 0.
Proof.
  destruct (updateNodesOnEdgeChange_remove_clears edge_1_2
              [with_data (with_connections [conn_1_2; conn_1_2]) node_1] 0
              (with_data (with_connections [conn_1_2; conn_1_2]) node_1))
    as (node' & Hlookup & Hid & Hcount);
    [split; eexists; reflexivity|reflexivity|].
  exists node'. split; [exact Hlookup|]. split; [exact Hid|exact Hcount].
Defined.

(** * Undoing and redoing a connection *)

Lemma filter_Forall_same {A : Type} (P : A → Prop) `{∀ x, Decision (P x)}
    (l : list A) :
  Forall P l → filter P l = l.
Proof.
  induction 1 as [|x l Hx _ IH]; [done|]. by rewrite filter_cons_True, IH.
Qed.

Lemma count_conn_absent (edge : Edge.t) (cs : list Conn.t) :
  conn_of_edge edge ∉ cs → length (filter (conn_matches edge) cs) = 0.
Proof.
  intros Habsent. induction cs as [|c cs IH]; [done|].
  apply not_elem_of_cons in Habsent as [Hne Habsent].
  rewrite filter_cons_False; [by apply IH|].
  intros Hc%conn_matches_eq. congruence.
Qed.

Lemma onConnect_done (getTypeColor : option string → string)
    (connection : Conn.t) (s s' : State.t) :
  onConnect getTypeColor connection s = Done s' →
  ∃ newEdge,
    conn_of_edge newEdge = connection ∧
    Edge.id newEdge =
      Conn.source connection +:+ "_" +:+
      handle_text (Conn.sourceHandle connection) +:+ "_" +:+
      Conn.target connection +:+ "_" +:+
      handle_text (Conn.targetHandle connection) ∧
    State.edges s' = addEdge newEdge (State.edges s) ∧
    State.pushed s' = State.pushed s ++ [ADD_EDGE newEdge].
Proof.
  unfold onConnect.
  destruct (getOutputType _ _ _) as [outputType|]; [|done].
  intros [= <-]. eexists. split_and!; [| |reflexivity|reflexivity].
  - by destruct connection.
  - done.
Qed.

Lemma onConnect_undo_nodes (newEdge : Edge.t) (nds : list Node.t) :
  (∀ node, node ∈ nds →
     conn_of_edge newEdge ∉ Data.connections (Node.data node)) →
  updateNodesOnEdgeChange newEdge remove
    ((λ node,
        if decide (Node.id node = Edge.source newEdge ∨
                   Node.id node = Edge.target newEdge)
        then with_data
               (λ d, with_connections
                  (Data.connections d ++
                   [conn_of_edge newEdge; conn_of_edge newEdge]) d) node
        else node) <$> nds) = nds.
Proof.
  intros Habsent. unfold updateNodesOnEdgeChange.
  rewrite <-list_fmap_compose.
  trans (fmap (M:=list) (λ n : Node.t, n) nds); [|apply list_fmap_id].
  apply list_fmap_ext. intros i node Hnode%list_elem_of_lookup_2. cbn.
  destruct (decide (Node.id node = Edge.source newEdge ∨
                    Node.id node = Edge.target newEdge)) as [Hend|Hend].
  - rewrite with_data_id, decide_True by done.
    unfold with_data at 1. cbn.
    rewrite filter_app,
      !(filter_cons_False _ (conn_of_edge newEdge))
      by (intros Hno; apply Hno; by apply conn_matches_eq).
    rewrite filter_nil, app_nil_r,
      filter_none_matching by (by apply count_conn_absent, Habsent).
    by destruct node as [id pos sel []].
  - by rewrite decide_False.
Qed.

Lemma onConnect_undo_edges (newEdge : Edge.t) (edges : list Edge.t) :
  (∀ edge, edge ∈ edges → Edge.id edge ≠ Edge.id newEdge) →
  filter (λ edge, Edge.id edge ≠ Edge.id newEdge) (addEdge newEdge edges) = edges.
Proof.
  intros Hids. unfold addEdge.
  assert (filter (λ edge, Edge.id edge ≠ Edge.id newEdge) edges = edges) as Hkeep.
  { by apply filter_Forall_same, Forall_forall. }
  repeat case_match; try done.
  by rewrite filter_app, Hkeep, filter_cons_False, filter_nil, app_nil_r
    by (intros Hne; by apply Hne).
Qed.

(** X3.  Undoing a connection takes back what [onConnect] did to nodes
    and edges, the doubled cache entries included: when the connection
    was cached nowhere and no edge had the identifier of the new edge,
    the [undo] of the pushed ADD_EDGE command restores both lists. *)
Theorem onConnect_undo_restores (getTypeColor : option string → string)
    (connection : Conn.t) (s s' : State.t) :
  onConnect getTypeColor connection s = Done s' →
  (∀ node, node ∈ State.nodes s →
     connection ∉ Data.connections (Node.data node)) →
  (∀ edge, edge ∈ State.edges s →
     Edge.id edge ≠
       Conn.source connection +:+ "_" +:+
       handle_text (Conn.sourceHandle connection) +:+ "_" +:+
       Conn.target connection +:+ "_" +:+
       handle_text (Conn.targetHandle connection)) →
  ∃ newEdge,
    State.pushed s' = State.pushed s ++ [ADD_EDGE newEdge] ∧
    State.nodes (command_undo (ADD_EDGE newEdge) s') = State.nodes s ∧
    State.edges (command_undo (ADD_EDGE newEdge) s') = State.edges s.
Proof.
  intros Hdone Habsent Hids.
  pose proof (onConnect_nodes _ _ _ _ Hdone) as Hnodes.
  destruct (onConnect_done _ _ _ _ Hdone) as (newEdge & Hconn & Hid & Hedges & Hpushed).
  exists newEdge. split; [done|]. cbn. split.
  - rewrite Hnodes, <-Hconn. apply onConnect_undo_nodes.
    intros node Hnode. rewrite Hconn. by apply Habsent.
  - rewrite Hedges. apply onConnect_undo_edges.
    intros edge Hedge. rewrite Hid. by apply Hids.
Qed.

Lemma onConnect_undo_restores_witness :
  ∃ s' newEdge,
    onConnect grey conn_1_2 two_nodes = Done s' ∧
    State.pushed s' = State.pushed two_nodes ++ [ADD_EDGE newEdge] ∧
    State.nodes (command_undo (ADD_EDGE newEdge) s') = State.nodes two_nodes ∧
    State.edges (command_undo (ADD_EDGE newEdge) s') = State.edges two_nodes.
Proof.
  eexists.
  edestruct (onConnect_undo_restores grey conn_1_2 two_nodes)
    as (newEdge & Hpushed & Hnodes & Hedges).
  - reflexivity.
  - intros node Hnode. cbn in Hnode.
    apply elem_of_cons in Hnode as [->|Hnode]; [apply not_elem_of_nil|].
    apply list_elem_of_singleton in Hnode as ->. apply not_elem_of_nil.
  - intros edge Hedge. by apply elem_of_nil in Hedge.
  - exists newEdge. split; [reflexivity|].
    split; [exact Hpushed|]. split; [exact Hnodes|exact Hedges].
Defined.

(** X4.  Undo followed by redo repairs the cache: when, before
    [onConnect], the connection was cached in no node and no edge had the
    identifier of the new edge, then after [onConnect], the [undo] and
    then the [redo] of the pushed command, the edge set is what
    [onConnect] made it, and the connection of the new edge is cached
    exactly once in each end point and in no other node. *)
Theorem onConnect_undo_redo_caches_once (getTypeColor : option string → string)
    (connection : Conn.t) (s s' : State.t) :
  onConnect getTypeColor connection s = Done s' →
  (∀ node, node ∈ State.nodes s →
     connection ∉ Data.connections (Node.data node)) →
  (∀ edge, edge ∈ State.edges s →
     Edge.id edge ≠
       Conn.source connection +:+ "_" +:+
       handle_text (Conn.sourceHandle connection) +:+ "_" +:+
       Conn.target connection +:+ "_" +:+
       handle_text (Conn.targetHandle connection)) →
  ∃ newEdge,
    State.pushed s' = State.pushed s ++ [ADD_EDGE newEdge] ∧
    State.edges (command_redo (ADD_EDGE newEdge)
                   (command_undo (ADD_EDGE newEdge) s')) = State.edges s' ∧
    ∀ node,
      node ∈ State.nodes (command_redo (ADD_EDGE newEdge)
                            (command_undo (ADD_EDGE newEdge) s')) →
      count_conn newEdge node =
        if decide (Node.id node = Edge.source newEdge ∨
                   Node.id node = Edge.target newEdge)
        then 1 else 0.
Proof.
  intros Hdone Habsent Hids.
  pose proof (onConnect_nodes _ _ _ _ Hdone) as Hs'nodes.
  destruct (onConnect_done _ _ _ _ Hdone) as (newEdge & Hconn & Hid & Hs' & Hpushed).
  assert (State.nodes (command_undo (ADD_EDGE newEdge) s') = State.nodes s) as Hnodes.
  { cbn. rewrite Hs'nodes, <-Hconn. apply onConnect_undo_nodes.
    intros node Hnode. rewrite Hconn. by apply Habsent. }
  assert (State.edges (command_undo (ADD_EDGE newEdge) s') = State.edges s) as Hedges.
  { cbn. rewrite Hs'. apply onConnect_undo_edges.
    intros edge Hedge. rewrite Hid. by apply Hids. }
  exists newEdge. split; [done|].
  change (State.edges (command_redo (ADD_EDGE newEdge)
            (command_undo (ADD_EDGE newEdge) s')))
    with (addEdge newEdge (State.edges (command_undo (ADD_EDGE newEdge) s'))).
  change (State.nodes (command_redo (ADD_EDGE newEdge)
            (command_undo (ADD_EDGE newEdge) s')))
    with (updateNodesOnEdgeChange newEdge add
            (State.nodes (command_undo (ADD_EDGE newEdge) s'))).
  split.
  - by rewrite Hedges, Hs'.
  - rewrite Hnodes. unfold updateNodesOnEdgeChange.
    intros node' (node & -> & Hnode)%list_elem_of_fmap.
    specialize (Habsent node Hnode). rewrite <-Hconn in Habsent.
    destruct (decide (Node.id node = Edge.source newEdge ∨
                      Node.id node = Edge.target newEdge)) as [Hend|Hend].
    + rewrite with_data_id, decide_True by done.
      unfold count_conn. cbn.
      rewrite filter_app, length_app, count_conn_absent by done.
      by rewrite filter_cons_True by (by apply conn_matches_eq).
    + rewrite decide_False by done. by apply count_conn_absent.
Qed.

Lemma onConnect_undo_redo_caches_once_witness :
  ∃ s' newEdge,
    onConnect grey conn_1_2 two_nodes = Done s' ∧
    State.edges (command_redo (ADD_EDGE newEdge)
                   (command_undo (ADD_EDGE newEdge) s')) = State.edges s'.
Proof.
  eexists.
  edestruct (onConnect_undo_redo_caches_once grey conn_1_2 two_nodes)
    as (newEdge & _ & Hedges & _).
  - reflexivity.
  - intros node Hnode. cbn in Hnode.
    apply elem_of_cons in Hnode as [->|Hnode]; [apply not_elem_of_nil|].
    apply list_elem_of_singleton in Hnode as ->. apply not_elem_of_nil.
  - intros edge Hedge. by apply elem_of_nil in Hedge.
  - exists newEdge. split; [reflexivity|exact Hedges].
Defined.

(** * Removing edges and nodes *)

Lemma filter_none {A : Type} (P : A → Prop) `{∀ x, Decision (P x)} (l : list A) :
  (∀ x, x ∈ l → ¬ P x) → filter P l = [].
Proof.
  induction l as [|x l IH]; intros Hnone; [done|].
  rewrite filter_cons_False by (apply Hnone; left).
  apply IH. intros y Hy. apply Hnone. by right.
Qed.

Lemma find_edge_None (id : string) (edges : list Edge.t) :
  find_edge id edges = None ↔ ∀ edge, edge ∈ edges → Edge.id edge ≠ id.
Proof.
  unfold find_edge. split.
  - intros Hfind edge Hedge%list_elem_of_In.
    eapply find_none in Hfind; [|exact Hedge].
    by apply bool_decide_eq_false in Hfind.
  - intros Hnone. destruct (List.find _ edges) as [edge|] eqn:Hfind; [|done].
    apply find_some in Hfind as [Hin%list_elem_of_In Hid%bool_decide_eq_true].
    by destruct (Hnone edge).
Qed.

Lemma find_edge_Some (id : string) (edges : list Edge.t) (edge : Edge.t) :
  find_edge id edges = Some edge → edge ∈ edges ∧ Edge.id edge = id.
Proof.
  intros [Hin Hid]%find_some. split; [by apply list_elem_of_In|].
  by apply bool_decide_eq_true in Hid.
Qed.

Lemma applyEdgeChanges_remove (id : string) (eds : list Edge.t) :
  applyEdgeChanges [EdgeRemove id] eds = filter (λ edge, Edge.id edge ≠ id) eds.
Proof.
  unfold applyEdgeChanges. induction eds as [|item eds IH]; [done|].
  cbn [omap list_omap]. rewrite !filter_cons. cbn.
  destruct (decide (id = Edge.id item)) as [->|Hne].
  - rewrite decide_False by (by intros ?). cbn. apply IH.
  - rewrite decide_True by congruence. cbn. f_equal. apply IH.
Qed.

Lemma applyEdgeChanges_unknown (changes : list EdgeChange) (eds : list Edge.t) :
  (∀ change edge, change ∈ changes → edge ∈ eds →
     edge_change_id change ≠ Edge.id edge) →
  applyEdgeChanges changes eds = eds.
Proof.
  intros Hunknown. unfold applyEdgeChanges.
  induction eds as [|item eds IH]; [done|]. cbn [omap list_omap].
  rewrite filter_none by (intros change Hchange; apply Hunknown; [done|left]).
  cbn. f_equal. apply IH. intros change edge ??. apply Hunknown; [done|by right].
Qed.

Lemma set_edges_same (s : State.t) : set_edges (State.edges s) s = s.
Proof. by destruct s. Qed.

Lemma set_nodes_same (s : State.t) : set_nodes (State.nodes s) s = s.
Proof. by destruct s. Qed.

(** X5.  Edge changes that name no edge of the graph, removals or
    selections, leave the whole state as it is: nothing is pushed and no
    cache is touched. *)
Theorem onEdgesChange_unknown (changes : list EdgeChange) (s : State.t) :
  (∀ change, change ∈ changes →
     find_edge (edge_change_id change) (State.edges s) = None) →
  onEdgesChange changes s = s.
Proof.
  intros Hunknown. unfold onEdgesChange.
  assert (∀ acc, foldl (λ acc change,
            match change with
            | EdgeRemove id =>
                match find_edge id (State.edges s) with
                | Some removedEdge =>
                    set_nodes
                      (updateNodesOnEdgeChange removedEdge remove
                         (State.nodes (history_push (DELETE_EDGE removedEdge) acc)))
                      (history_push (DELETE_EDGE removedEdge) acc)
                | None => acc
                end
            | EdgeSelect _ _ => acc
            end) acc changes = acc) as Hfold.
  { induction changes as [|change changes IH]; intros acc; [done|].
    cbn [foldl].
    assert (∀ c, c ∈ changes →
              find_edge (edge_change_id c) (State.edges s) = None) as Hrest
      by (intros c Hc; apply Hunknown; by right).
    destruct change as [id|id b]; [|by apply IH].
    pose proof (Hunknown (EdgeRemove id) (list_elem_of_here _ _)) as Hid.
    cbn in Hid. rewrite Hid. by apply IH. }
  rewrite Hfold.
  rewrite applyEdgeChanges_unknown; [apply set_edges_same|].
  intros change edge Hchange Hedge Hid.
  eapply find_edge_None; [by apply Hunknown|exact Hedge|done].
Qed.

Lemma onEdgesChange_unknown_witness :
  onEdgesChange [EdgeRemove "9_out_8_a"; EdgeSelect "7" true] wired = wired.
Proof.
  apply (onEdgesChange_unknown [EdgeRemove "9_out_8_a"; EdgeSelect "7" true] wired).
  intros change Hchange.
  apply elem_of_cons in Hchange as [->|Hchange]; [reflexivity|].
  apply list_elem_of_singleton in Hchange as ->. reflexivity.
Defined.

(** X6.  Removing an edge that exists, both of whose handles are
    strings, pushes one DELETE_EDGE command for it, takes every edge of
    that identifier out of the edge set and keeps the others, and leaves
    no connection of the edge in the cache of any of its end points. *)
Theorem onEdgesChange_remove (id : string) (s : State.t) (removedEdge : Edge.t) :
  defined_handles removedEdge →
  find_edge id (State.edges s) = Some removedEdge →
  State.pushed (onEdgesChange [EdgeRemove id] s) =
    State.pushed s ++ [DELETE_EDGE removedEdge] ∧
  State.edges (onEdgesChange [EdgeRemove id] s) =
    filter (λ edge, Edge.id edge ≠ id) (State.edges s) ∧
  (removedEdge ∉ State.edges (onEdgesChange [EdgeRemove id] s)) ∧
  (∀ node, node ∈ State.nodes (onEdgesChange [EdgeRemove id] s) →
     Node.id node = Edge.source removedEdge ∨
     Node.id node = Edge.target removedEdge →
     count_conn removedEdge node = 0).
Proof.
  intros _ Hfind. unfold onEdgesChange. cbn [foldl]. rewrite Hfind.
  cbn [State.pushed State.edges State.nodes set_edges set_nodes history_push].
  rewrite applyEdgeChanges_remove. split_and!; [done..| |].
  - intros [Hid _]%list_elem_of_filter.
    by apply find_edge_Some in Hfind as [_ ?].
  - unfold updateNodesOnEdgeChange.
    intros node (old & -> & Hold)%list_elem_of_fmap Hend.
    case_decide as Hold_end.
    + unfold count_conn. cbn. apply filter_all_matching.
    + by destruct Hold_end.
Qed.

Lemma onEdgesChange_remove_witness :
  State.pushed (onEdgesChange [EdgeRemove "1_out_2_a"] wired) =
    State.pushed wired ++ [DELETE_EDGE edge_1_2] ∧
  State.edges (onEdgesChange [EdgeRemove "1_out_2_a"] wired) = [].
Proof.
  destruct (onEdgesChange_remove "1_out_2_a" wired edge_1_2)
    as (Hpushed & Hedges & _); [split; eexists; reflexivity|reflexivity|].
  split; [exact Hpushed|]. rewrite Hedges. reflexivity.
Defined.

(** X7.  The [undo] of the deletion of an edge both of whose handles are
    strings puts the edge back at the end of the edge set and does not
    touch the nodes: the caches of its end points, cleared by the
    deletion, stay without its connection. *)
Theorem onEdgesChange_remove_undo (id : string) (s : State.t)
    (removedEdge : Edge.t) :
  defined_handles removedEdge →
  find_edge id (State.edges s) = Some removedEdge →
  State.edges (command_undo (DELETE_EDGE removedEdge)
                 (onEdgesChange [EdgeRemove id] s)) =
    filter (λ edge, Edge.id edge ≠ id) (State.edges s) ++ [removedEdge] ∧
  (∀ node,
     node ∈ State.nodes (command_undo (DELETE_EDGE removedEdge)
                           (onEdgesChange [EdgeRemove id] s)) →
     Node.id node = Edge.source removedEdge ∨
     Node.id node = Edge.target removedEdge →
     count_conn removedEdge node = 0).
Proof.
  intros _ Hfind. unfold onEdgesChange. cbn [foldl]. rewrite Hfind.
  cbn [command_undo State.edges State.nodes set_edges set_nodes history_push].
  rewrite applyEdgeChanges_remove. split; [done|].
  unfold updateNodesOnEdgeChange.
  intros node (old & -> & Hold)%list_elem_of_fmap Hend.
  case_decide as Hold_end.
  - unfold count_conn. cbn. apply filter_all_matching.
  - by destruct Hold_end.
Qed.

Lemma onEdgesChange_remove_undo_witness :
  State.edges (command_undo (DELETE_EDGE edge_1_2)
                 (onEdgesChange [EdgeRemove "1_out_2_a"] wired)) =
    filter (λ edge, Edge.id edge ≠ "1_out_2_a") (State.edges wired) ++ [edge_1_2].
Proof.
  apply (onEdgesChange_remove_undo "1_out_2_a" wired edge_1_2);
    [split; eexists; reflexivity|reflexivity].
Defined.

Lemma applyNodeChanges_remove (id : string) (nds : list Node.t) :
  applyNodeChanges [NodeRemove id] nds = filter (λ node, Node.id node ≠ id) nds.
Proof.
  unfold applyNodeChanges. induction nds as [|item nds IH]; [done|].
  cbn [omap list_omap]. rewrite !filter_cons. cbn.
  destruct (decide (id = Node.id item)) as [->|Hne].
  - rewrite decide_False by (by intros ?). cbn. apply IH.
  - rewrite decide_True by congruence. cbn. f_equal. apply IH.
Qed.

Lemma applyNodeChanges_position (id : string) (position : option XY.t)
    (nds : list Node.t) :
  applyNodeChanges [NodePosition id position] nds =
    (λ node,
       if decide (Node.id node = id)
       then from_option (λ p, with_position p node) node position
       else node) <$> nds.
Proof.
  unfold applyNodeChanges. induction nds as [|item nds IH]; [done|].
  cbn [omap list_omap fmap list_fmap]. rewrite filter_cons. cbn.
  destruct (decide (id = Node.id item)) as [->|Hne].
  - rewrite decide_True by done. destruct position; cbn; f_equal; apply IH.
  - rewrite decide_False by congruence. cbn. f_equal. apply IH.
Qed.


(** X8.  Deleting a node that exists pushes one DELETE_NODE command
    holding the node, takes every node of that identifier out of the node
    list, and leaves the edge set as it is: the edges that start or end
    at the node stay in the graph. *)
Theorem onNodesChange_remove (id : string) (s : State.t) (removedNode : Node.t) :
  find_node id (State.nodes s) = Some removedNode →
  ∃ s', onNodesChange [NodeRemove id] s = Done s' ∧
    State.pushed s' = State.pushed s ++ [DELETE_NODE removedNode] ∧
    State.nodes s' = filter (λ node, Node.id node ≠ id) (State.nodes s) ∧
    State.edges s' = State.edges s.
Proof.
  intros Hfind. unfold onNodesChange.
  cbn [onNodesChange_forEach onNodesChange_each]. rewrite Hfind.
  eexists. split; [done|].
  cbn [State.pushed State.nodes State.edges set_nodes history_push].
  by rewrite applyNodeChanges_remove.
Qed.

Lemma onNodesChange_remove_witness :
  ∃ s', onNodesChange [NodeRemove "2"] wired = Done s' ∧
    Node.id <$> State.nodes s' = ["1"] ∧
    State.edges s' = [edge_1_2].
Proof.
  destruct (onNodesChange_remove "2" wired node_2)
    as (s' & Hdone & _ & Hnodes & Hedges); [reflexivity|].
  exists s'. split; [exact Hdone|]. rewrite Hnodes, Hedges. split; reflexivity.
Defined.

Lemma filter_same_id (nds : list Node.t) (node : Node.t) :
  NoDup (Node.id <$> nds) → node ∈ nds →
  filter (λ other, ¬ Node.id other ≠ Node.id node) nds = [node].
Proof.
  induction nds as [|first nds IH]; intros Hnd Hin.
  { by apply elem_of_nil in Hin. }
  rewrite fmap_cons in Hnd. apply NoDup_cons in Hnd as [Hfirst Hnd].
  rewrite filter_cons. destruct (decide (Node.id first = Node.id node)) as [Hid|Hid].
  - rewrite decide_True by (by intros ?).
    assert (first = node) as ->.
    { apply elem_of_cons in Hin as [->|Hin]; [done|]. destruct Hfirst.
      rewrite Hid. apply list_elem_of_fmap. by exists node. }
    f_equal. apply filter_none. intros other Hother Hsame. apply Hfirst.
    apply list_elem_of_fmap. exists other. split; [|done].
    by destruct (decide (Node.id other = Node.id node)) as [->|?].
  - rewrite decide_False by (by intros Hn; apply Hn).
    apply IH; [done|]. apply elem_of_cons in Hin as [->|Hin]; done.
Qed.

(** X9.  With unique node identifiers, deleting a node and undoing the
    deletion gives back the same nodes, the deleted one now last: the
    node list is a permutation of what it was. *)
Theorem onNodesChange_remove_undo (id : string) (s s' : State.t)
    (removedNode : Node.t) :
  NoDup (Node.id <$> State.nodes s) →
  find_node id (State.nodes s) = Some removedNode →
  onNodesChange [NodeRemove id] s = Done s' →
  State.nodes (command_undo (DELETE_NODE removedNode) s') =
    filter (λ node, Node.id node ≠ id) (State.nodes s) ++ [removedNode] ∧
  State.nodes (command_undo (DELETE_NODE removedNode) s') ≡ₚ State.nodes s.
Proof.
  intros Hnd Hfind Hdone. unfold onNodesChange in Hdone.
  cbn [onNodesChange_forEach onNodesChange_each] in Hdone.
  rewrite Hfind in Hdone. simplify_eq.
  cbn [command_undo set_nodes State.nodes history_push].
  rewrite applyNodeChanges_remove. split; [done|].
  apply find_node_Some in Hfind as [Hin <-].
  rewrite <-(filter_same_id (State.nodes s) removedNode) by done.
  apply filter_app_complement.
Qed.

Lemma onNodesChange_remove_undo_witness :
  ∃ s', onNodesChange [NodeRemove "1"] two_nodes = Done s' ∧
    State.nodes (command_undo (DELETE_NODE node_1) s') ≡ₚ State.nodes two_nodes.
Proof.
  eexists. split; [reflexivity|].
  apply (onNodesChange_remove_undo "1" two_nodes _ node_1).
  - exact two_nodes_NoDup.
  - reflexivity.
  - reflexivity.
Defined.

(** X10.  A position change that carries no position is ignored while a
    node is dragged, and makes the handler throw, before any node is
    updated, when nothing is dragged and the node exists. *)
Theorem onNodesChange_position_missing (id : string) (s : State.t)
    (movedNode : Node.t) :
  find_node id (State.nodes s) = Some movedNode →
  onNodesChange [NodePosition id None] s =
    if State.isDragging s then Done s else Threw s.
Proof.
  intros Hfind. unfold onNodesChange.
  cbn [onNodesChange_forEach onNodesChange_each]. rewrite Hfind.
  destruct (State.isDragging s); [|done].
  rewrite applyNodeChanges_position.
  assert ((λ node, if decide (Node.id node = id)
                   then from_option (λ p, with_position p node) node None
                   else node) <$> State.nodes s = State.nodes s) as ->.
  { trans (fmap (M:=list) (λ n : Node.t, n) (State.nodes s));
      [|apply list_fmap_id].
    apply list_fmap_ext. intros i node _. by case_decide. }
  by rewrite set_nodes_same.
Qed.

Lemma onNodesChange_position_missing_witness :
  onNodesChange [NodePosition "1" None] two_nodes = Threw two_nodes.
Proof.
  exact (onNodesChange_position_missing "1" two_nodes node_1 eq_refl).
Defined.




(** * More on dragging *)

(** X12.  A drag stop that React Flow reports without a node returns
    before the dragging flag is cleared: after a drag start and such a
    stop, no later position change is logged, whatever the distance. *)
Theorem drag_stop_without_node (node : Node.t) (moves : list (list NodeChange))
    (s : State.t) :
  Forall (Forall (λ c, ¬ is_removal c)) moves →
  ∃ s',
    drag_moves moves (onNodesChangeEnd None (onNodesChangeStart node s))
      = Done s' ∧
    State.isDragging s' = true ∧
    State.pushed s' = State.pushed s.
Proof.
  intros Hmoves.
  destruct (drag_moves_dragging moves (onNodesChangeStart node s))
    as (s' & Hdone & Hdrag & _ & Hpushed); [done..|].
  exists s'. by split_and!.
Qed.

Lemma drag_stop_without_node_witness :
  ∃ s',
    drag_moves [[NodePosition "1" (Some (XY.mk 500 500))]]
      (onNodesChangeEnd None (onNodesChangeStart node_1 two_nodes)) = Done s' ∧
    State.isDragging s' = true ∧
    State.pushed s' = State.pushed two_nodes.
Proof.
  apply (drag_stop_without_node node_1
           [[NodePosition "1" (Some (XY.mk 500 500))]] two_nodes).
  repeat constructor; simpl; tauto.
Defined.

(** X13.  A completed drag gesture leaves no trace in the refs: dragging
    is off and the start position recorded for the node is deleted, the
    positions recorded for other nodes being kept. *)
Theorem drag_clears_refs (s : State.t) (node : Node.t)
    (moves : list (list NodeChange)) (endPosition : XY.t) :
  Forall (Forall (λ c, ¬ is_removal c)) moves →
  ∃ s', drag node moves endPosition s = Done s' ∧
    State.isDragging s' = false ∧
    State.initialPositionRef s' =
      delete (Node.id node) (State.initialPositionRef s).
Proof.
  intros Hmoves. unfold drag.
  destruct (drag_moves_dragging moves (onNodesChangeStart node s))
    as (s1 & -> & Hdrag & Hinit & Hpushed); [done..|].
  eexists. split; [done|].
  unfold onNodesChangeEnd. cbn. rewrite Hinit. cbn.
  rewrite lookup_insert_eq.
  destruct (movedEnough _ _); cbn; by rewrite ?Hinit, delete_insert_eq.
Qed.

Lemma drag_clears_refs_witness :
  ∃ s', drag node_1 [] (XY.mk 60 80) two_nodes = Done s' ∧
    State.isDragging s' = false ∧
    State.initialPositionRef s' =
      delete "1" (State.initialPositionRef two_nodes).
Proof.
  apply (drag_clears_refs two_nodes node_1 [] (XY.mk 60 80)). constructor.
Defined.

(** * Identifiers *)

(** X14.  [addNode] keeps the node identifiers unique and below the
    counter: in a state where they are, the new node gets an identifier
    no node carries. *)
Theorem addNode_keeps_ids_unique (blockId nodeType : string) (rx ry : Z)
    (s : State.t) :
  NoDup (Node.id <$> State.nodes s) →
  ids_below_counter s →
  NoDup (Node.id <$> State.nodes (addNode blockId nodeType rx ry s)) ∧
  ids_below_counter (addNode blockId nodeType rx ry s).
Proof.
  intros Hnd Hinv. split; [|by apply addNode_ids_below_counter].
  unfold addNode. destruct (List.find _ _); [|done]. cbn.
  rewrite fmap_app. apply NoDup_app. split_and!; [done| |apply NoDup_singleton].
  intros id (node & -> & Hnode)%list_elem_of_fmap Hnew%list_elem_of_singleton.
  by apply (Hinv node (State.nodeId s)).
Qed.

Lemma addNode_keeps_ids_unique_witness :
  NoDup (Node.id <$> State.nodes (addNode "block-in" "Input" 10 20 two_nodes)) ∧
  ids_below_counter (addNode "block-in" "Input" 10 20 two_nodes).
Proof.
  apply (addNode_keeps_ids_unique "block-in" "Input" 10 20 two_nodes).
  - exact two_nodes_NoDup.
  - exact two_nodes_ids_below_counter.
Defined.

(** X15.  [paste] keeps the node identifiers unique and below the
    counter as well. *)
Theorem paste_keeps_ids_unique (now : nat → Z) (s : State.t) :
  NoDup (Node.id <$> State.nodes s) →
  ids_below_counter s →
  NoDup (Node.id <$> State.nodes (paste now s)) ∧
  ids_below_counter (paste now s).
Proof.
  intros Hnd Hinv. split; [|by apply paste_ids_below_counter].
  unfold paste. destruct (State.copiedNodes s) as [|c cs] eqn:Hcopied; [done|].
  cbn [State.nodes set_edges set_nodeId set_nodes].
  rewrite fmap_app, <-list_fmap_compose. apply NoDup_app.
  split_and!; [done| |apply pasted_nodes_NoDup].
  intros id (node & -> & Hnode)%list_elem_of_fmap
    (new & Hid & (i & src & _ & Hnew & _)%pasted_nodes_id)%list_elem_of_fmap.
  cbn in Hid. rewrite Hnew in Hid.
  apply (Hinv node (State.nodeId s + N.of_nat i)%N); [done|lia|done].
Qed.

Lemma paste_keeps_ids_unique_witness :
  NoDup (Node.id <$> State.nodes (paste clock (copy two_nodes))) ∧
  ids_below_counter (paste clock (copy two_nodes)).
Proof.
  apply (paste_keeps_ids_unique clock (copy two_nodes)).
  - exact two_nodes_NoDup.
  - exact two_nodes_ids_below_counter.
Defined.

(** X16.  In a state whose node identifiers lie below the counter,
    undoing [addNode] takes the new node out again and leaves the nodes
    as they were, but not the counter: the identifier that was given out
    is not given out again. *)
Theorem addNode_undo (blockId nodeType : string) (rx ry : Z) (s : State.t)
    (nodeSchema : Block.t) :
  List.find (λ node, bool_decide (Block.id node = blockId))
    (State.availableNodes s) = Some nodeSchema →
  ids_below_counter s →
  ∃ newNode,
    State.pushed (addNode blockId nodeType rx ry s) =
      State.pushed s ++ [ADD_NODE newNode] ∧
    Node.id newNode = pretty (State.nodeId s) ∧
    State.nodes (command_undo (ADD_NODE newNode)
                   (addNode blockId nodeType rx ry s)) = State.nodes s ∧
    State.nodeId (command_undo (ADD_NODE newNode)
                    (addNode blockId nodeType rx ry s)) = (State.nodeId s + 1)%N.
Proof.
  intros Hfind Hinv. unfold addNode. rewrite Hfind.
  eexists. split; [reflexivity|]. split; [reflexivity|]. split; [|done].
  cbn. rewrite filter_app, filter_cons_False, filter_nil, app_nil_r
    by (intros Hne; by apply Hne).
  apply filter_Forall_same, Forall_forall. intros node Hnode.
  by apply (Hinv node (State.nodeId s)).
Qed.

Lemma addNode_undo_witness :
  ∃ newNode,
    State.pushed (addNode "block-in" "Input" 10 20 two_nodes) =
      State.pushed two_nodes ++ [ADD_NODE newNode] ∧
    Node.id newNode = "3" ∧
    State.nodes (command_undo (ADD_NODE newNode)
                   (addNode "block-in" "Input" 10 20 two_nodes)) =
      State.nodes two_nodes.
Proof.
  destruct (addNode_undo "block-in" "Input" 10 20 two_nodes
              (Block.mk "block-in" "Input" (Some open_schema) (Some out_schema)))
    as (newNode & Hpushed & Hid & Hnodes & _).
  - reflexivity.
  - exact two_nodes_ids_below_counter.
  - exists newNode. split; [exact Hpushed|]. split; [exact Hid|exact Hnodes].
Defined.

(** X17.  Pasting the same clipboard twice puts the two copies of every
    copied node at the same place: they differ in their identifiers and
    share the key (block identifier, x, y) by which a save finds the
    nodes again. *)
Theorem paste_twice_same_keys (now now' : nat → Z) (s : State.t) (i : nat)
    (src : Node.t) :
  State.copiedNodes s !! i = Some src →
  ∃ first second,
    first ∈ State.nodes (paste now' (paste now s)) ∧
    second ∈ State.nodes (paste now' (paste now s)) ∧
    Node.id first = pretty (State.nodeId s + N.of_nat i)%N ∧
    Node.id second =
      pretty (State.nodeId s + N.of_nat (length (State.copiedNodes s))
              + N.of_nat i)%N ∧
    Node.id first ≠ Node.id second ∧
    key_of_node first = key_of_node second.
Proof.
  intros Hsrc.
  assert (State.copiedNodes s ≠ []) as Hne by (by intros Hnil; rewrite Hnil in Hsrc).
  assert (State.copiedNodes (paste now s) = State.copiedNodes s) as Hclip.
  { unfold paste. destruct (State.copiedNodes s) eqn:Hcopied; cbn; congruence. }
  assert (State.nodeId (paste now s) =
            (State.nodeId s + N.of_nat (length (State.copiedNodes s)))%N) as Hcounter.
  { unfold paste. by destruct (State.copiedNodes s). }
  assert (State.nodes (paste now s) =
            (with_selected false <$> State.nodes s) ++
            pasted_nodes (State.nodeId s) (State.copiedNodes s)) as Hnodes1.
  { unfold paste. by destruct (State.copiedNodes s). }
  assert (State.nodes (paste now' (paste now s)) =
            (with_selected false <$> State.nodes (paste now s)) ++
            pasted_nodes (State.nodeId (paste now s))
              (State.copiedNodes (paste now s))) as Hnodes2.
  { unfold paste at 1. rewrite Hclip. by destruct (State.copiedNodes s). }
  rewrite Hnodes2, Hnodes1, Hclip, Hcounter.
  pose proof (pasted_nodes_lookup (State.nodeId s) (State.copiedNodes s) i) as H1.
  pose proof (pasted_nodes_lookup
                (State.nodeId s + N.of_nat (length (State.copiedNodes s)))%N
                (State.copiedNodes s) i) as H2.
  rewrite Hsrc in H1, H2. cbn in H1, H2.
  eexists (with_selected false _), _. split_and!.
  - apply elem_of_app. left. apply list_elem_of_fmap. eexists. split; [done|].
    apply elem_of_app. right. eapply list_elem_of_lookup_2, H1.
  - apply elem_of_app. right. eapply list_elem_of_lookup_2, H2.
  - done.
  - done.
  - cbn. intros Heq%(inj pretty). apply lookup_lt_Some in Hsrc. lia.
  - done.
Qed.

Lemma paste_twice_same_keys_witness :
  ∃ first second,
    first ∈ State.nodes (paste clock (paste clock (copy two_nodes))) ∧
    second ∈ State.nodes (paste clock (paste clock (copy two_nodes))) ∧
    Node.id first = "3" ∧ Node.id second = "5" ∧
    key_of_node first = key_of_node second.
Proof.
  destruct (paste_twice_same_keys clock clock (copy two_nodes) 0 node_1)
    as (first & second & H1 & H2 & Hid1 & Hid2 & _ & Hkey); [reflexivity|].
  exists first, second.
  split; [exact H1|]. split; [exact H2|]. split; [exact Hid1|].
  split; [exact Hid2|exact Hkey].
Defined.

(** * More on the input composer *)

(** X18.  Under a schema that declares no property named [__proto__],
    the composed payload holds no key that is neither declared nor in the
    value map: every key of it is a declared property of the schema
    whose value could be read from the value map, or, under a schema
    that allows additional properties, an own key of the value map. *)
Theorem getNestedData_keys (inherited : Value → string → option Value)
    (schema : Schema) (values : Value) (r : Obj) (key : string) :
  proto_free schema = true →
  getNestedData inherited schema values = Some r →
  is_Some (obj_get key r) →
  (∃ prop v, properties schema ≫= obj_get key = Some prop ∧
     get_member inherited values key = Some (Some v)) ∨
  (additionalProperties schema = true ∧
   is_Some (obj_get key (own_entries values))).
Proof.
  intros Hfree Hr [v Hv].
  assert (is_Some (declared_lookup inherited schema values key) →
          ∃ prop v, properties schema ≫= obj_get key = Some prop ∧
            get_member inherited values key = Some (Some v)) as Hdeclared.
  { unfold declared_lookup. intros [d Hd].
    destruct (properties schema) as [props|]; [|done]. cbn.
    destruct (obj_get key props) as [prop|]; [|done].
    destruct (get_member inherited values key) as [[v'|]|]; [|done..].
    by eauto. }
  destruct (additionalProperties schema) eqn:Hadd.
  - rewrite (getNestedData_additional inherited schema values r key) in Hv by done.
    destruct (obj_get key (own_entries values)) as [own|]; [right; by eauto|].
    left. apply Hdeclared. by eexists.
  - rewrite (getNestedData_declared inherited schema values r key) in Hv by done.
    left. apply Hdeclared. by eexists.
Qed.

Lemma getNestedData_keys_witness :
  (∃ prop v, properties open_schema ≫= obj_get "z" = Some prop ∧
     get_member no_inherited (VObj [("a", VStr "x"); ("z", VNum 9)]) "z"
       = Some (Some v)) ∨
  (additionalProperties open_schema = true ∧
   is_Some (obj_get "z" (own_entries (VObj [("a", VStr "x"); ("z", VNum 9)])))).
Proof.
  apply (getNestedData_keys no_inherited open_schema
           (VObj [("a", VStr "x"); ("z", VNum 9)])
           [("a", VStr "x"); ("z", VNum 9)] "z").
  - reflexivity.
  - reflexivity.
  - exists (VNum 9). reflexivity.
Defined.

(** X19.  On the value [null] the composition throws as soon as the
    schema declares a property, since the first property is read from
    [null]; a schema that declares none gives the empty payload. *)
Theorem getNestedData_null_values (inherited : Value → string → option Value)
    (schema : Schema) :
  getNestedData inherited schema VNull =
    match properties schema with
    | Some (_ :: _) => None
    | _ => Some []
    end.
Proof.
  rewrite getNestedData_unfold.
  destruct (properties schema) as [[|[key prop] props]|]; cbn;
    by destruct (additionalProperties schema).
Qed.

(** * More on saving *)

Lemma formatNode_with_execution (inherited : Value → string → option Value)
    (availableNodes : list Block.t) (edges : list Edge.t)
    (ev : ExecutionEvent.t) (node : Node.t) :
  formatNode inherited availableNodes edges (with_data (with_execution ev) node) =
    formatNode inherited availableNodes edges node.
Proof. done. Qed.

Lemma mapM_fmap_ext {A B C : Type} (f : B → option C) (g : A → B)
    (h : A → option C) (l : list A) :
  (∀ x, f (g x) = h x) → mapM f (g <$> l) = mapM h l.
Proof.
  intros Hfg. induction l as [|x l IH]; [done|].
  cbn. by rewrite Hfg, IH.
Qed.

(** X20.  What the run reports never reaches the service: the payload
    assembled after execution events have been merged into the nodes is
    the payload assembled before. *)
Theorem build_payload_ignores_execution
    (inherited : Value → string → option Value)
    (executionData : list ExecutionEvent.t) (s : State.t) :
  build_payload inherited (updateNodesWithExecutionData executionData s) =
    build_payload inherited s.
Proof.
  unfold build_payload, updateNodesWithExecutionData.
  cbn [State.nodes State.edges State.availableNodes State.savedAgent
       State.agentName State.agentDescription set_nodes].
  rewrite (mapM_fmap_ext _ _
             (formatNode inherited (State.availableNodes s) (State.edges s)));
    [done|].
  intros node. destruct (find_execution executionData node); [|done].
  apply formatNode_with_execution.
Qed.

(** X21.  A save that does not bring back a graph, because it is
    skipped, because composing an input throws or because the service
    fails, commits nothing but the cleared status: the saved agent, the
    edges and every field of the state are as before, and the nodes are
    the same nodes without their status. *)
Theorem saveAgent_without_response (inherited : Value → string → option Value)
    (deepEquals : Payload.t → Graph.t → bool)
    (api : Api.t) (asTemplate : bool) (s : State.t) :
  (∀ id, Saved.settled (saveAgent inherited deepEquals api asTemplate s)
           ≠ Resolved (Some id)) →
  Saved.state (saveAgent inherited deepEquals api asTemplate s) =
    set_nodes (with_data (with_status None) <$> State.nodes s) s.
Proof.
  unfold saveAgent. intros Hnone.
  destruct (build_payload inherited s) as [payload|]; [|done].
  destruct (match State.savedAgent s with Some _ => _ | None => _ end)
    as [call|]; [|done].
  destruct (perform api call) as [g|]; [|done].
  by destruct (Hnone (Graph.id g)).
Qed.

Lemma saveAgent_without_response_witness :
  Saved.state (saveAgent no_inherited deepEquals_graph failing_api false two_nodes) =
    set_nodes (with_data (with_status None) <$> State.nodes two_nodes) two_nodes.
Proof.
  apply (saveAgent_without_response no_inherited deepEquals_graph failing_api
           false two_nodes).
  intros id. discriminate.
Defined.

(** X22.  A save that goes through does not clear the status after all:
    the nodes put in place are built from the nodes as they were on
    entry, so each of them is a prior node with its identifier, status,
    output, values, cached connections and selection, changed only in
    position and [backend_id]. *)
Theorem saveAgent_keeps_status (inherited : Value → string → option Value)
    (deepEquals : Payload.t → Graph.t → bool)
    (api : Api.t) (asTemplate : bool) (s : State.t) (newSavedAgent : Graph.t)
    (new : Node.t) :
  saved_as (saveAgent inherited deepEquals api asTemplate s) newSavedAgent →
  new ∈ State.nodes (Saved.state (saveAgent inherited deepEquals api asTemplate s)) →
  ∃ old backendNode,
    old ∈ State.nodes s ∧ backendNode ∈ Graph.nodes newSavedAgent ∧
    new = remapped backendNode old ∧
    Node.id new = Node.id old ∧
    Node.selected new = Node.selected old ∧
    Data.status (Node.data new) = Data.status (Node.data old) ∧
    Data.output_data (Node.data new) = Data.output_data (Node.data old) ∧
    Data.hardcodedValues (Node.data new) = Data.hardcodedValues (Node.data old) ∧
    Data.connections (Node.data new) = Data.connections (Node.data old).
Proof.
  intros [Hnodes _]%saveAgent_saved_nodes. rewrite Hnodes.
  unfold updatedNodes. intros (backendNode & Hback & Hnew)%list_elem_of_omap.
  destruct (_ !! _) as [id|]; [|done]. cbn in Hnew.
  destruct (find_node id (State.nodes s)) as [old|] eqn:Hold; [|done].
  cbn in Hnew. simplify_eq. apply find_node_Some in Hold as [Hold _].
  by exists old, backendNode.
Qed.

Lemma saveAgent_keeps_status_witness :
  ∃ old backendNode,
    old ∈ [with_data (with_status (Some "RUNNING")) node_1] ∧
    backendNode ∈ Graph.nodes
      (Graph.mk "graph-7" "Agent Name" "Agent Description" false
         [GraphNode.mk "srv-1" "block-in" [("a", VStr "x")] [] [] (XY.mk 0 0)] []) ∧
    Data.status (Node.data (remapped backendNode old)) = Some "RUNNING".
Proof.
  destruct (saveAgent_keeps_status no_inherited deepEquals_graph echo_api false
              (flow [with_data (with_status (Some "RUNNING")) node_1] [] 2 None)
              (Graph.mk "graph-7" "Agent Name" "Agent Description" false
                 [GraphNode.mk "srv-1" "block-in" [("a", VStr "x")] [] []
                    (XY.mk 0 0)] [])
              (remapped
                 (GraphNode.mk "srv-1" "block-in" [("a", VStr "x")] [] [] (XY.mk 0 0))
                 (with_data (with_status (Some "RUNNING")) node_1)))
    as (old & backendNode & Hold & Hback & Hnew & _ & _ & Hstatus & _).
  - split; reflexivity.
  - apply list_elem_of_here.
  - exists old, backendNode. split; [exact Hold|]. split; [exact Hback|].
    rewrite <-Hnew. reflexivity.
Defined.

(** * Running *)

(** X23.  Save and run on a graph that is unchanged since the last save
    never runs it: the save is skipped and returns nothing, which
    [runAgent] takes for a failed save, so no call is made at all. *)
Theorem runAgent_unchanged (inherited : Value → string → option Value)
    (deepEquals : Payload.t → Graph.t → bool)
    (api : Api.t) (s : State.t) (payload : Payload.t) (savedAgent : Graph.t) :
  build_payload inherited s = Some payload →
  State.savedAgent s = Some savedAgent →
  deepEquals payload savedAgent = true →
  Ran.calls (runAgent inherited deepEquals api s) = [] ∧
  Ran.errors (runAgent inherited deepEquals api s) = [ErrorSavingAgent].
Proof.
  intros Hpayload Hsaved Hequal. unfold runAgent, saveAgent.
  by rewrite Hpayload, Hsaved, Hequal.
Qed.

Lemma runAgent_unchanged_witness :
  Ran.calls (runAgent no_inherited deepEquals_graph keep_api
               (Saved.state (saveAgent no_inherited deepEquals_graph keep_api false two_nodes)))
    = [] ∧
  Ran.errors (runAgent no_inherited deepEquals_graph keep_api
                (Saved.state (saveAgent no_inherited deepEquals_graph keep_api false two_nodes)))
    = [ErrorSavingAgent].
Proof.
  eapply (runAgent_unchanged no_inherited deepEquals_graph keep_api
            (Saved.state (saveAgent no_inherited deepEquals_graph keep_api false two_nodes)));
    reflexivity.
Defined.

(** * Execution events *)

Lemma find_execution_with_execution (executionData : list ExecutionEvent.t)
    (ev : ExecutionEvent.t) (node : Node.t) :
  find_execution executionData (with_data (with_execution ev) node) =
    find_execution executionData node.
Proof. done. Qed.

(** X24.  Merging a batch of execution events is idempotent: merging the
    same batch a second time changes nothing. *)
Theorem updateNodesWithExecutionData_idempotent
    (executionData : list ExecutionEvent.t) (s : State.t) :
  updateNodesWithExecutionData executionData
    (updateNodesWithExecutionData executionData s) =
  updateNodesWithExecutionData executionData s.
Proof.
  unfold updateNodesWithExecutionData. cbn [State.nodes set_nodes].
  rewrite <-list_fmap_compose.
  assert (∀ nodes nodes' (s : State.t),
            nodes = nodes' →
            set_nodes nodes (set_nodes nodes' s) = set_nodes nodes' s) as Hset.
  { intros nodes nodes' [] ->. done. }
  apply Hset. apply list_fmap_ext. intros i node _. cbn.
  destruct (find_execution executionData node) as [ev|] eqn:Hev.
  - by rewrite find_execution_with_execution, Hev.
  - by rewrite Hev.
Qed.

(** X25.  Events for identifiers no node carries as its [backend_id] are
    dropped without a trace; in a graph that was never saved, where no
    node has a [backend_id], no event has any effect. *)
Theorem updateNodesWithExecutionData_unknown
    (executionData : list ExecutionEvent.t) (s : State.t) :
  (∀ node ev, node ∈ State.nodes s → ev ∈ executionData →
     Data.backend_id (Node.data node) ≠ Some (ExecutionEvent.node_id ev)) →
  updateNodesWithExecutionData executionData s = s.
Proof.
  intros Hunknown. unfold updateNodesWithExecutionData.
  assert ((λ node,
             match find_execution executionData node with
             | Some nodeExecution => with_data (with_execution nodeExecution) node
             | None => node
             end) <$> State.nodes s = State.nodes s) as ->;
    [|apply set_nodes_same].
  trans (fmap (M:=list) (λ n : Node.t, n) (State.nodes s)); [|apply list_fmap_id].
  apply list_fmap_ext. intros i node Hnode%list_elem_of_lookup_2. cbn.
  destruct (find_execution executionData node) as [ev|] eqn:Hev; [|done].
  apply find_some in Hev as [Hin%list_elem_of_In Hid%bool_decide_eq_true].
  by destruct (Hunknown node ev).
Qed.

Lemma updateNodesWithExecutionData_unknown_witness :
  updateNodesWithExecutionData [done_event] two_nodes = two_nodes.
Proof.
  apply (updateNodesWithExecutionData_unknown [done_event] two_nodes).
  intros node ev Hnode _. cbn in Hnode.
  apply elem_of_cons in Hnode as [->|Hnode]; [discriminate|].
  apply list_elem_of_singleton in Hnode as ->. discriminate.
Defined.

(** X26.  After a save that went through, an event of the run reaches
    the node it is about: for a node whose key no other node shares and
    the node of the response with that key, an event that names the
    identifier the service assigned sets status and output on that node
    and opens its output panel. *)
Theorem saveAgent_then_execution (inherited : Value → string → option Value)
    (deepEquals : Payload.t → Graph.t → bool)
    (api : Api.t) (asTemplate : bool) (s : State.t) (newSavedAgent : Graph.t)
    (node : Node.t) (backendNode : GraphNode.t) (ev : ExecutionEvent.t) :
  saved_as (saveAgent inherited deepEquals api asTemplate s) newSavedAgent →
  NoDup (Node.id <$> State.nodes s) →
  node ∈ State.nodes s →
  (∀ other, other ∈ State.nodes s →
     key_of_node other = key_of_node node → other = node) →
  backendNode ∈ Graph.nodes newSavedAgent →
  key_of_backendNode backendNode = key_of_node node →
  ExecutionEvent.node_id ev = GraphNode.id backendNode →
  ∃ new,
    new ∈ State.nodes
            (updateNodesWithExecutionData [ev]
               (Saved.state (saveAgent inherited deepEquals api asTemplate s))) ∧
    Node.id new = Node.id node ∧
    Data.status (Node.data new) = Some (ExecutionEvent.status ev) ∧
    Data.output_data (Node.data new) = Some (ExecutionEvent.output_data ev) ∧
    Data.isOutputOpen (Node.data new) = true.
Proof.
  intros [Hnodes _]%saveAgent_saved_nodes Hnd Hin Hunique Hback Hkey Hev.
  exists (with_data (with_execution ev) (remapped backendNode node)).
  split; [|done].
  unfold updateNodesWithExecutionData. cbn [State.nodes set_nodes].
  apply list_elem_of_fmap. exists (remapped backendNode node). split.
  - unfold find_execution. cbn. by rewrite Hev, bool_decide_eq_true_2.
  - rewrite Hnodes. apply updatedNodes_elem; [done|].
    exists backendNode, node. eauto using unique_key_last.
Qed.

Lemma saveAgent_then_execution_witness :
  ∃ new,
    new ∈ State.nodes
            (updateNodesWithExecutionData [done_event]
               (Saved.state (saveAgent no_inherited deepEquals_graph echo_api false two_nodes))) ∧
    Node.id new = "1" ∧
    Data.status (Node.data new) = Some "COMPLETED".
Proof.
  destruct (saveAgent_then_execution no_inherited deepEquals_graph echo_api
              false two_nodes
              renamed_graph node_1
              (GraphNode.mk "srv-1" "block-in" [("a", VStr "x")] [] [] (XY.mk 0 0))
              done_event)
    as (new & Hin & Hid & Hstatus & _).
  - split; reflexivity.
  - exact two_nodes_NoDup.
  - apply list_elem_of_here.
  - intros other Hother Hkey. cbn in Hother.
    apply elem_of_cons in Hother as [->|Hother]; [reflexivity|].
    apply list_elem_of_singleton in Hother as ->.
    vm_compute in Hkey. discriminate Hkey.
  - apply list_elem_of_here.
  - reflexivity.
  - reflexivity.
  - exists new. split; [exact Hin|]. split; [exact Hid|exact Hstatus].
Defined.

(** * Loading *)

Lemma handle_of_name_default (name : string) :
  default "" (handle_of_name name) = name.
Proof. unfold handle_of_name. by case_decide. Qed.

Lemma loaded_edge_link (getTypeColor : option string → string)
    (nodes : list Node.t) (link : Link.t) (edge : Edge.t) :
  loaded_edge getTypeColor nodes link = Some edge → link_of_edge edge = link.
Proof.
  unfold loaded_edge. destruct (getOutputType _ _ _); [|done].
  intros [= <-]. unfold link_of_edge. cbn.
  rewrite !handle_of_name_default. by destruct link.
Qed.

Lemma loadGraph_done (getTypeColor : option string → string) (graph : Graph.t)
    (s s' : State.t) :
  loadGraph getTypeColor graph s = Done s' →
  ∃ newNodes newEdges,
    mapM (loaded_node (State.availableNodes s)) (Graph.nodes graph) = Some newNodes ∧
    mapM (loaded_edge getTypeColor (State.nodes s)) (Graph.links graph)
      = Some newEdges ∧
    s' = set_edges newEdges (set_nodes newNodes (set_agent graph s)).
Proof.
  unfold loadGraph.
  destruct (mapM (loaded_node _) _) as [newNodes|]; [|done].
  destruct (mapM (loaded_edge _ _) _) as [newEdges|]; [|done].
  intros [= <-]. by exists newNodes, newEdges.
Qed.

(** X27.  Links survive loading: the links that a save writes for the
    edges of a loaded graph are the links of the graph, in order, empty
    port names included, and the payload carries the identifier of the
    loaded graph. *)
Theorem loadGraph_links_round_trip (inherited : Value → string → option Value)
    (getTypeColor : option string → string)
    (graph : Graph.t) (s s' : State.t) (payload : Payload.t) :
  loadGraph getTypeColor graph s = Done s' →
  build_payload inherited s' = Some payload →
  Payload.links payload = Graph.links graph ∧
  Payload.id payload = Some (Graph.id graph).
Proof.
  intros (newNodes & newEdges & _ & Hedges & ->)%loadGraph_done.
  unfold build_payload.
  cbn [State.nodes State.edges State.availableNodes State.savedAgent
       State.agentName State.agentDescription set_nodes set_edges set_agent].
  destruct (mapM _ newNodes) as [formattedNodes|]; [|done].
  cbn. intros [= <-]. cbn. split; [|done].
  apply mapM_Some_1 in Hedges.
  induction Hedges as [|link edge links edges Hedge _ IH]; [done|].
  cbn. f_equal; [|done]. by eapply (loaded_edge_link getTypeColor).
Qed.

Lemma loadGraph_links_round_trip_witness :
  ∃ s' payload,
    loadGraph grey linked_graph empty_flow = Done s' ∧
    build_payload no_inherited s' = Some payload ∧
    Payload.links payload = [Link.mk "n-in" "n-out" "out" "a"].
Proof.
  eexists _, _. split; [reflexivity|]. split; [reflexivity|].
  exact (proj1 (loadGraph_links_round_trip no_inherited grey linked_graph
                  empty_flow _ _ eq_refl eq_refl)).
Defined.

(** X28.  Loading rebuilds one node for each node of the graph, in
    order, under its identifier, at its position, with its block and
    its input values, unselected and without status.  The caches are
    not rebuilt: every loaded node has an empty connection list,
    whatever links the graph has.  The counter and the history are not
    touched. *)
Theorem loadGraph_nodes (getTypeColor : option string → string)
    (graph : Graph.t) (s s' : State.t) :
  loadGraph getTypeColor graph s = Done s' →
  Forall2 (λ backendNode node,
             Node.id node = GraphNode.id backendNode ∧
             Node.position node = GraphNode.position backendNode ∧
             Data.block_id (Node.data node) = GraphNode.block_id backendNode ∧
             Data.hardcodedValues (Node.data node) =
               GraphNode.input_default backendNode ∧
             Data.connections (Node.data node) = [] ∧
             Data.status (Node.data node) = None ∧
             Data.backend_id (Node.data node) = None ∧
             Node.selected node = false)
    (Graph.nodes graph) (State.nodes s') ∧
  State.savedAgent s' = Some graph ∧
  State.nodeId s' = State.nodeId s ∧
  State.pushed s' = State.pushed s.
Proof.
  intros (newNodes & newEdges & Hnodes & _ & ->)%loadGraph_done.
  split; [|done]. cbn. apply mapM_Some_1 in Hnodes.
  eapply Forall2_impl; [exact Hnodes|].
  intros backendNode node Hnode. unfold loaded_node in Hnode.
  destruct (List.find _ _) as [block|] eqn:Hblock; [|done].
  cbn in Hnode. simplify_eq. cbn. split_and!; try done.
  apply find_some in Hblock as [_ Hid]. by apply bool_decide_eq_true in Hid.
Qed.

Lemma loadGraph_nodes_witness :
  ∃ s',
    loadGraph grey linked_graph empty_flow = Done s' ∧
    Data.connections ∘ Node.data <$> State.nodes s' = [[]; []] ∧
    State.nodeId s' = State.nodeId empty_flow.
Proof.
  eexists. split; [reflexivity|].
  destruct (loadGraph_nodes grey linked_graph empty_flow _ eq_refl)
    as (_ & _ & Hcounter & _).
  split; [reflexivity|exact Hcounter].
Defined.

(** X29.  A graph that names a block the catalog does not have makes
    [loadGraph] throw while it builds the nodes.  By then the saved
    agent, the name and the description are those of the graph; nodes
    and edges are still the old ones. *)
Theorem loadGraph_missing_block (getTypeColor : option string → string)
    (graph : Graph.t) (s : State.t) (backendNode : GraphNode.t) :
  backendNode ∈ Graph.nodes graph →
  (∀ block, block ∈ State.availableNodes s →
     Block.id block ≠ GraphNode.block_id backendNode) →
  loadGraph getTypeColor graph s = Threw (set_agent graph s) ∧
  State.nodes (set_agent graph s) = State.nodes s ∧
  State.edges (set_agent graph s) = State.edges s ∧
  State.savedAgent (set_agent graph s) = Some graph.
Proof.
  intros Hin Hmissing. split; [|done]. unfold loadGraph.
  assert (mapM (loaded_node (State.availableNodes s)) (Graph.nodes graph) = None)
    as ->; [|done].
  apply mapM_None, Exists_exists. exists backendNode. split; [done|].
  unfold loaded_node.
  destruct (List.find _ _) as [block|] eqn:Hblock; [|done].
  apply find_some in Hblock as [Hb%list_elem_of_In Hid%bool_decide_eq_true].
  by destruct (Hmissing block).
Qed.

Lemma loadGraph_missing_block_witness :
  loadGraph grey linked_graph initial = Threw (set_agent linked_graph initial).
Proof.
  eapply (proj1 (loadGraph_missing_block grey linked_graph initial _ _ _)).
  Unshelve.
  - exact (GraphNode.mk "n-in" "block-in" [("a", VStr "x")] [] [] (XY.mk 0 0)).
  - apply list_elem_of_here.
  - intros block Hblock. by apply elem_of_nil in Hblock.
Defined.

(** X30.  The colour of a loaded edge is looked up in the nodes the
    editor had before the load, not in the loaded ones: loading into an
    editor without nodes, with every block in the catalog, always
    completes and gives every edge the colour of the type "unknown" and
    no source position. *)
Theorem loadGraph_into_empty (getTypeColor : option string → string)
    (graph : Graph.t) (s : State.t) :
  State.nodes s = [] →
  (∀ backendNode, backendNode ∈ Graph.nodes graph →
     ∃ block, block ∈ State.availableNodes s ∧
       Block.id block = GraphNode.block_id backendNode) →
  ∃ s', loadGraph getTypeColor graph s = Done s' ∧
    length (State.edges s') = length (Graph.links graph) ∧
    Forall (λ edge,
              Edge.edgeColor edge = getTypeColor (Some "unknown") ∧
              Edge.sourcePos edge = None) (State.edges s').
Proof.
  intros Hempty Hblocks. unfold loadGraph.
  destruct (mapM (loaded_node _) _) as [newNodes|] eqn:Hnodes; cycle 1.
  { apply mapM_None, Exists_exists in Hnodes as (backendNode & Hin & Hnone).
    destruct (Hblocks backendNode Hin) as (block & Hblock & Hid).
    unfold loaded_node in Hnone.
    destruct (List.find _ _) eqn:Hfind; [done|].
    apply list_elem_of_In in Hblock.
    eapply find_none in Hfind; [|exact Hblock].
    cbn in Hfind. by rewrite bool_decide_eq_true_2 in Hfind. }
  rewrite Hempty.
  assert (mapM (loaded_edge getTypeColor []) (Graph.links graph) =
            Some ((λ link,
                     Edge.mk
                       (Link.source_id link +:+ "_" +:+ Link.source_name link +:+
                        "_" +:+ Link.sink_id link +:+ "_" +:+ Link.sink_name link)
                       (Link.source_id link) (handle_of_name (Link.source_name link))
                       (Link.sink_id link) (handle_of_name (Link.sink_name link))
                       false (getTypeColor (Some "unknown")) None)
                  <$> Graph.links graph)) as ->.
  { apply mapM_Some_2. induction (Graph.links graph) as [|link links IH]; [constructor|].
    cbn. by constructor. }
  eexists. split; [done|]. cbn. split; [by rewrite length_fmap|].
  apply Forall_fmap, Forall_forall. by intros link _.
Qed.

Lemma loadGraph_into_empty_witness :
  ∃ s', loadGraph grey linked_graph empty_flow = Done s' ∧
    length (State.edges s') = 1 ∧
    Forall (λ edge, Edge.edgeColor edge = "grey" ∧ Edge.sourcePos edge = None)
      (State.edges s').
Proof.
  apply (loadGraph_into_empty grey linked_graph empty_flow); [reflexivity|].
  intros backendNode Hin. cbn in Hin.
  apply elem_of_cons in Hin as [->|Hin].
  - eexists. split; [apply list_elem_of_here|reflexivity].
  - apply list_elem_of_singleton in Hin as ->.
    eexists. split; [apply list_elem_of_further, list_elem_of_here|reflexivity].
Defined.
